(** * Network flows optimisation (Pyomo transportation model)

    A shallow embedding of [main.py]: the abstract model built by
    [create_model] (sets, mutable parameters, flow variables, the three
    constraint rules and the objective rule), its instantiation on the data
    of a [DataPortal], and the report printed by
    [solve_problem_and_print_results] from the solver's answer.

    - Python numbers are IEEE binary64 values (Rocq's primitive floats); a
      JSON integer is read at its float value, on which every comparison
      used by the program agrees.  Identifiers of sources and customers are
      strings.
    - A Python computation is a log of events (component accesses, the call
      of the solver, what is printed) with an exception or a result.
    - Pyomo: indexing a component outside its index set raises [KeyError];
      the parameters are mutable and have no default, so an entry enters an
      expression by reference and only [value] needs it to have a value,
      raising [ValueError] otherwise.
    - pandas: [frame[mask].apply(f, axis=1)] is the row-wise application of
      [f] to the selected rows, in order.
    - The loader of the JSON file and the solver (cbc) are collaborators:
      they are variables of the development.  The solver answers with a
      status, a termination condition, the values of the variables, the
      duals of the constraints and the reduced costs of the variables. *)

From Stdlib Require Import Ascii String Floats.
From stdpp Require Import base decidable option list gmap strings.

Open Scope string_scope.
Open Scope list_scope.

(** ** Python numbers *)

Module PyFloat.

Definition zero : float := 0%float.

(** [x < 0], [x > 0], [x == y] and [abs(x)] on Python floats. *)
Definition flt (x y : float) : bool := PrimFloat.ltb x y.
Definition fgt (x y : float) : bool := PrimFloat.ltb y x.
Definition fle (x y : float) : bool := PrimFloat.leb x y.
Definition fge (x y : float) : bool := PrimFloat.leb y x.
Definition feq (x y : float) : bool := PrimFloat.eqb x y.
Definition fabs (x : float) : float := PrimFloat.abs x.

(** Truth value of a number, as [if x:] tests it: every number but zero
    (of either sign) is true. *)
Definition truthy (x : float) : bool := negb (feq x zero).

End PyFloat.

Import PyFloat.

(** ** The data of a problem ([DataPortal])

    The three sets and the four parameter tables that the JSON file
    provides.  A set is the list of its members in iteration order; a table
    is a finite map, so a value may be absent. *)

Abbreviation arc := (string * string)%type.

Record DataPortal := {
  sSources : list string;
  sCustomers : list string;
  sSources_sCustomers : list arc;
  pSourceProduction : gmap string float;
  pCustomerDemand : gmap string float;
  pTransportationCosts : gmap arc float;
  pFixedTransportation : gmap arc float
}.

(** ** Components, expressions and events *)

(** One entry [component[index]] of an indexed component of the model. *)
Inductive ref :=
| ref_pSourceProduction (iSource : string)
| ref_pCustomerDemand (iCustomer : string)
| ref_pTransportationCosts (a : arc)
| ref_pFixedTransportation (a : arc)
| ref_vQuantityExchangedSourceCustomer (a : arc)
| ref_c01_production_limit_satisfaction (iSource : string)
| ref_c02_demand_limit_satisfaction (iCustomer : string)
| ref_c03_fixed_transportations (a : arc).

(** Expressions over variables and mutable parameters.  [Const] is a Python
    number, such as the [0] that [sum] starts from. *)
Inductive expr :=
| Const (x : float)
| Ref (r : ref)
| Add (e1 e2 : expr)
| Mul (e1 e2 : expr).

(** What a constraint rule returns: a relational expression, or
    [Constraint.Skip]. *)
Inductive relational :=
| Le (lhs rhs : expr)
| Ge (lhs rhs : expr)
| Eq (lhs rhs : expr).

Inductive rule_result :=
| Rel (c : relational)
| Skip.

Definition body (c : relational) : expr :=
  match c with Le l _ | Ge l _ | Eq l _ => l end.

Inductive sense := minimize | maximize.

(** The enumerations of [pyomo.opt]. *)
Module SolverStatus.
Inductive t := ok | warning | error | aborted | unknown.
End SolverStatus.

Module TerminationCondition.
Inductive t :=
| unknown | maxTimeLimit | maxIterations | minFunctionValue | minStepLength
| globallyOptimal | locallyOptimal | feasible | optimal | maxEvaluations
| other | unbounded | infeasible | infeasibleOrUnbounded | invalidProblem
| intermediateNonInteger | noSolution | solverFailure | internalSolverError
| error | userInterrupt | resourceInterrupt | licensingProblems.
End TerminationCondition.

(** Python objects that reach [print]. *)
Inductive pyobj :=
| PStr (s : string)
| PNum (x : float)
| PStatus (s : SolverStatus.t)
| PTermination (t : TerminationCondition.t)
| PNone.

(** What a run does that can be observed: it indexes components, calls the
    solver, and prints. *)
Inductive event :=
| GetItem (r : ref)
| Solve
| Print (args : list pyobj)
| PrintFrame (columns : list string) (rows : list (list pyobj))
| ResultsWrite.

Inductive PyErr :=
| KeyError (r : ref)      (* index not in the index set of the component *)
| ValueError (r : ref).   (* parameter without a value *)

(** ** The monad of Python computations: a log of events and either an
    exception or a result. *)

Definition Py (A : Type) : Type := list event * (PyErr + A).

#[global] Instance Py_ret : MRet Py := λ A a, ([], inr a).

#[global] Instance Py_bind : MBind Py := λ A B f m,
  match m with
  | (log, inl e) => (log, inl e)
  | (log, inr a) => let '(log', r) := f a in (log ++ log', r)
  end.

Definition tell (e : event) : Py unit := ([e], inr tt).
Definition raise {A} (e : PyErr) : Py A := ([], inl e).
Definition lift {A} (r : PyErr + A) : Py A := ([], r).
Definition print (args : list pyobj) : Py unit := tell (Print args).

(** Membership [x in s] of a Pyomo set. *)
Definition py_in {A} `{EqDecision A} (x : A) (s : list A) : bool :=
  bool_decide (x ∈ s).

Definition in_index_set (model : DataPortal) (r : ref) : bool :=
  match r with
  | ref_pSourceProduction i | ref_c01_production_limit_satisfaction i =>
      py_in i (sSources model)
  | ref_pCustomerDemand j | ref_c02_demand_limit_satisfaction j =>
      py_in j (sCustomers model)
  | ref_pTransportationCosts a | ref_pFixedTransportation a
  | ref_vQuantityExchangedSourceCustomer a =>
      py_in a (sSources_sCustomers model)
  | ref_c03_fixed_transportations a =>
      py_in a (cprod (sSources model) (sCustomers model))
  end.

(** [component[index]]: a [KeyError] outside the index set of the
    component, the entry (by reference) inside it. *)
Definition getitem (model : DataPortal) (r : ref) : Py expr :=
  tell (GetItem r);;
  if in_index_set model r then mret (Ref r) else raise (KeyError r).

(** The value of a parameter entry: the parameters are declared without a
    default, so an entry that the data leaves out has no value. *)
Definition param_value (model : DataPortal) (r : ref) : option float :=
  match r with
  | ref_pSourceProduction i => pSourceProduction model !! i
  | ref_pCustomerDemand j => pCustomerDemand model !! j
  | ref_pTransportationCosts a => pTransportationCosts model !! a
  | ref_pFixedTransportation a => pFixedTransportation model !! a
  | _ => None
  end.

(** [value(e)] where the flow variables have the values [x]. *)
Fixpoint value (model : DataPortal) (x : arc → float) (e : expr) : PyErr + float :=
  match e with
  | Const c => inr c
  | Ref (ref_vQuantityExchangedSourceCustomer a) => inr (x a)
  | Ref r =>
      match param_value model r with
      | Some v => inr v
      | None => inl (ValueError r)
      end
  | Add e1 e2 =>
      match value model x e1 with
      | inl err => inl err
      | inr v1 =>
          match value model x e2 with
          | inl err => inl err
          | inr v2 => inr (v1 + v2)%float
          end
      end
  | Mul e1 e2 =>
      match value model x e1 with
      | inl err => inl err
      | inr v1 =>
          match value model x e2 with
          | inl err => inl err
          | inr v2 => inr (v1 * v2)%float
          end
      end
  end.

(** The builtin [sum]: it starts from [0] and adds the terms in turn. *)
Definition py_sum (terms : list expr) : expr :=
  fold_left Add terms (Const zero).

(** The variables are declared with [initialize=0]. *)
Definition initialize : arc → float := λ _, zero.

(** ** [create_model]: the rules of the abstract model *)

Definition c01_production_limit_satisfaction
    (model : DataPortal) (iSource : string) : Py rule_result :=
  terms ← mapM
    (λ iCustomer,
       getitem model (ref_vQuantityExchangedSourceCustomer (iSource, iCustomer)))
    (filter (λ iCustomer, (iSource, iCustomer) ∈ sSources_sCustomers model)
            (sCustomers model));
  rhs ← getitem model (ref_pSourceProduction iSource);
  mret (Rel (Le (py_sum terms) rhs)).

Definition c02_demand_limit_satisfaction
    (model : DataPortal) (iCustomer : string) : Py rule_result :=
  terms ← mapM
    (λ iSource,
       getitem model (ref_vQuantityExchangedSourceCustomer (iSource, iCustomer)))
    (filter (λ iSource, (iSource, iCustomer) ∈ sSources_sCustomers model)
            (sSources model));
  rhs ← getitem model (ref_pCustomerDemand iCustomer);
  mret (Rel (Ge (py_sum terms) rhs)).

Definition c03_fixed_transportations
    (model : DataPortal) (iSource iCustomer : string) : Py rule_result :=
  test ← (if py_in (iSource, iCustomer) (sSources_sCustomers model)
          then p ← getitem model (ref_pFixedTransportation (iSource, iCustomer));
               v ← lift (value model initialize p);
               mret (truthy v)
          else mret false);
  if (test : bool)
  then lhs ← getitem model (ref_vQuantityExchangedSourceCustomer (iSource, iCustomer));
       rhs ← getitem model (ref_pFixedTransportation (iSource, iCustomer));
       mret (Rel (Eq lhs rhs))
  else mret Skip.

Definition obj_expression (model : DataPortal) : Py expr :=
  terms ← mapM
    (λ a : arc,
       cost ← getitem model (ref_pTransportationCosts a);
       flow ← getitem model (ref_vQuantityExchangedSourceCustomer a);
       mret (Mul cost flow))
    (filter (λ a, a ∈ sSources_sCustomers model)
            (cprod (sSources model) (sCustomers model)));
  mret (py_sum terms).

(** ** [create_instance]: the concrete model *)

(** An indexed [Constraint] component: the rule is called at each member of
    the index set in turn, and an entry is stored unless the rule skips. *)
Fixpoint construct {K} `{Countable K}
    (rule : K → Py rule_result) (index_set : list K) : Py (gmap K relational) :=
  match index_set with
  | [] => mret ∅
  | k :: rest =>
      r ← rule k;
      m ← construct rule rest;
      mret (match r with Rel c => <[k:=c]> m | Skip => m end)
  end.

Record ConcreteModel := {
  model_data : DataPortal;
  model_vQuantityExchangedSourceCustomer : list arc;
  model_c01_production_limit_satisfaction : gmap string relational;
  model_c02_demand_limit_satisfaction : gmap string relational;
  model_c03_fixed_transportations : gmap arc relational;
  model_f_obj : sense * expr
}.

Definition create_instance (data : DataPortal) : Py ConcreteModel :=
  c01 ← construct (c01_production_limit_satisfaction data) (sSources data);
  c02 ← construct (c02_demand_limit_satisfaction data) (sCustomers data);
  c03 ← construct (λ a : arc, c03_fixed_transportations data a.1 a.2)
                  (cprod (sSources data) (sCustomers data));
  obj ← obj_expression data;
  mret {| model_data := data;
          model_vQuantityExchangedSourceCustomer := sSources_sCustomers data;
          model_c01_production_limit_satisfaction := c01;
          model_c02_demand_limit_satisfaction := c02;
          model_c03_fixed_transportations := c03;
          model_f_obj := (minimize, obj) |}.

(** ** The narrative conclusions *)

Definition print_conclusions_sources_sensibility_analysis
    (shadow_price : float) (source : string) : Py unit :=
  if flt shadow_price zero then
    print [PStr "The total transportation cost would be reduced by";
           PNum (fabs shadow_price);
           PStr "euros for each additional ton available in"; PStr source]
  else if fgt shadow_price zero then
    print [PStr "The total transportation cost would be increased in";
           PNum shadow_price;
           PStr "euros for each additional ton available in"; PStr source]
  else
    print [PStr "The total transportation cost would remain equal for each additional ton available in";
           PStr source].

Definition print_conclusions_customers_sensibility_analysis
    (shadow_price : float) (customer : string) : Py unit :=
  if flt shadow_price zero then
    print [PStr "The total transportation cost would be reduced by";
           PNum (fabs shadow_price);
           PStr "euros for each additional ton supply at"; PStr customer]
  else if fgt shadow_price zero then
    print [PStr "The total transportation cost would be increased in";
           PNum shadow_price;
           PStr "euros for each additional ton supply at"; PStr customer]
  else
    print [PStr "The total transportation cost would remain equal for each additional ton supply at";
           PStr customer].

Definition print_conclusions_routes_sensibility_analysis
    (reduced_cost : float) (source customer : string) : Py unit :=
  if flt reduced_cost zero then
    print [PStr "The total transportation cost would be reduced by";
           PNum (fabs reduced_cost);
           PStr "euros for each ton supply from"; PStr source;
           PStr "to"; PStr customer]
  else if fgt reduced_cost zero then
    print [PStr "The total cost would be increased in";
           PNum reduced_cost;
           PStr "euros for each ton supply from"; PStr source;
           PStr "to"; PStr customer]
  else
    print [PStr "The total transportation cost would remain equal for each ton supply from";
           PStr source; PStr "to"; PStr customer].

(** ** The solver's answer

    The status and termination condition of [results.solver], and what the
    solve loads into the instance: the values of the flow variables, the
    [dual] suffix on constraints and the [rc] suffix on variables. *)

Record SolverResults := {
  results_solver_status : SolverStatus.t;
  results_solver_termination_condition : TerminationCondition.t;
  solution_value : arc → float;
  solution_dual : ref → float;
  solution_rc : arc → float
}.

#[global] Instance SolverStatus_eq_dec : EqDecision SolverStatus.t.
Proof. solve_decision. Defined.

#[global] Instance TerminationCondition_eq_dec : EqDecision TerminationCondition.t.
Proof. solve_decision. Defined.

(** The rows of the three sensitivity tables. *)
Module SourceRow.
Record t := { Source : string; Capacity : float; Shipped : float; Shadow_price : float }.
Definition cells (r : t) : list pyobj :=
  [PStr (Source r); PNum (Capacity r); PNum (Shipped r); PNum (Shadow_price r)].
End SourceRow.

Module CustomerRow.
Record t := { Customer : string; Demand : float; Shipped : float; Shadow_price : float }.
Definition cells (r : t) : list pyobj :=
  [PStr (Customer r); PNum (Demand r); PNum (Shipped r); PNum (Shadow_price r)].
End CustomerRow.

Module RouteRow.
Record t := { Source : string; Customer : string; Quantity : float; Reduced_cost : float }.
Definition cells (r : t) : list pyobj :=
  [PStr (Source r); PStr (Customer r); PNum (Quantity r); PNum (Reduced_cost r)].
End RouteRow.

(** The line feed that [print("\n")] writes. *)
Definition nl : string := String "010"%char "".

(** [component[index]] on a constraint component of the instance. *)
Definition getitem_constraint {K} `{Countable K}
    (component : gmap K relational) (k : K) (r : ref) : Py relational :=
  tell (GetItem r);;
  match component !! k with
  | Some c => mret c
  | None => raise (KeyError r)
  end.

(** [frame[mask].apply(f, axis=1)]: [f] on each selected row, in order. *)
Definition apply_rows {R} (f : R → Py unit) (rows : list R) : Py unit :=
  mapM f rows;; mret tt.

Section Report.

Variable instance : ConcreteModel.
Variable results : SolverResults.

(** [value(instance.component[index])] after the solve. *)
Definition value_at (r : ref) : Py float :=
  e ← getitem (model_data instance) r;
  lift (value (model_data instance) (solution_value results) e).

Definition quantity_rows : Py (list (arc * float)) :=
  entries ← mapM
    (λ a : arc,
       if py_in a (sSources_sCustomers (model_data instance)) then
         q ← value_at (ref_vQuantityExchangedSourceCustomer a);
         if fgt q zero then
           q' ← value_at (ref_vQuantityExchangedSourceCustomer a);
           mret [(a, q')]
         else mret []
       else mret [])
    (cprod (sSources (model_data instance)) (sCustomers (model_data instance)));
  mret (concat entries).

Definition source_rows : Py (list SourceRow.t) :=
  mapM
    (λ iSource,
       capacity ← value_at (ref_pSourceProduction iSource);
       c ← getitem_constraint (model_c01_production_limit_satisfaction instance)
             iSource (ref_c01_production_limit_satisfaction iSource);
       shipped ← lift (value (model_data instance) (solution_value results) (body c));
       _ ← getitem_constraint (model_c01_production_limit_satisfaction instance)
             iSource (ref_c01_production_limit_satisfaction iSource);
       mret {| SourceRow.Source := iSource;
               SourceRow.Capacity := capacity;
               SourceRow.Shipped := shipped;
               SourceRow.Shadow_price :=
                 solution_dual results (ref_c01_production_limit_satisfaction iSource) |})
    (sSources (model_data instance)).

Definition customer_rows : Py (list CustomerRow.t) :=
  mapM
    (λ iCustomer,
       demand ← value_at (ref_pCustomerDemand iCustomer);
       c ← getitem_constraint (model_c02_demand_limit_satisfaction instance)
             iCustomer (ref_c02_demand_limit_satisfaction iCustomer);
       shipped ← lift (value (model_data instance) (solution_value results) (body c));
       _ ← getitem_constraint (model_c02_demand_limit_satisfaction instance)
             iCustomer (ref_c02_demand_limit_satisfaction iCustomer);
       mret {| CustomerRow.Customer := iCustomer;
               CustomerRow.Demand := demand;
               CustomerRow.Shipped := shipped;
               CustomerRow.Shadow_price :=
                 solution_dual results (ref_c02_demand_limit_satisfaction iCustomer) |})
    (sCustomers (model_data instance)).

Definition route_rows : Py (list RouteRow.t) :=
  mapM
    (λ a : arc,
       quantity ← value_at (ref_vQuantityExchangedSourceCustomer a);
       _ ← getitem (model_data instance) (ref_vQuantityExchangedSourceCustomer a);
       mret {| RouteRow.Source := a.1;
               RouteRow.Customer := a.2;
               RouteRow.Quantity := quantity;
               RouteRow.Reduced_cost := solution_rc results a |})
    (filter (λ a, a ∈ sSources_sCustomers (model_data instance))
            (cprod (sSources (model_data instance)) (sCustomers (model_data instance)))).

(** The conclusions drawn from a table: the rows without slack, the
    customers served at their demand, the routes without quantity. *)
Definition source_conclusions (rows : list SourceRow.t) : Py unit :=
  apply_rows
    (λ row, print_conclusions_sources_sensibility_analysis
              (SourceRow.Shadow_price row) (SourceRow.Source row))
    (filter (λ row, feq (SourceRow.Capacity row) (SourceRow.Shipped row) = true) rows).

Definition customer_conclusions (rows : list CustomerRow.t) : Py unit :=
  apply_rows
    (λ row, print_conclusions_customers_sensibility_analysis
              (CustomerRow.Shadow_price row) (CustomerRow.Customer row))
    (filter (λ row, feq (CustomerRow.Demand row) (CustomerRow.Shipped row) = true) rows).

Definition route_conclusions (rows : list RouteRow.t) : Py unit :=
  apply_rows
    (λ row, print_conclusions_routes_sensibility_analysis
              (RouteRow.Reduced_cost row) (RouteRow.Source row) (RouteRow.Customer row))
    (filter (λ row, feq (RouteRow.Quantity row) zero = true) rows).

(** The branch of an optimal solve. *)
Definition report_optimal : Py unit :=
  print [PStr "Solver status: "; PStatus (results_solver_status results)];;
  print [PStr "Termination condition: ";
         PTermination (results_solver_termination_condition results); PStr nl];;
  total ← lift (value (model_data instance) (solution_value results)
                      (model_f_obj instance).2);
  print [PStr "Total transportation cost: "; PNum total; PStr nl];;
  print [PStr "Quantity exchanged between sources and customers:"];;
  quantities ← quantity_rows;
  tell (PrintFrame ["Source"; "Customer"; "Quantity"]
          ((λ r : arc * float, [PStr r.1.1; PStr r.1.2; PNum r.2]) <$> quantities));;
  print [PStr nl];;
  print [PStr "Sources sensibility analysis:"];;
  sources ← source_rows;
  tell (PrintFrame ["Source"; "Capacity"; "Shipped"; "Shadow price"]
          (SourceRow.cells <$> sources));;
  source_conclusions sources;;
  print [PStr nl];;
  print [PStr "Customers sensibility analysis:"];;
  customers ← customer_rows;
  tell (PrintFrame ["Customer"; "Demand"; "Shipped"; "Shadow price"]
          (CustomerRow.cells <$> customers));;
  customer_conclusions customers;;
  print [PStr nl];;
  print [PStr "Routes sensibility analysis:"];;
  routes ← route_rows;
  tell (PrintFrame ["Source"; "Customer"; "Quantity"; "Reduced cost"]
          (RouteRow.cells <$> routes));;
  route_conclusions routes;;
  print [PStr nl].

(** The branch of an infeasible problem: [results.write()] dumps the
    results and returns [None], which is printed. *)
Definition report_infeasible : Py unit :=
  print [PStr nl];;
  print [PStr "Solver status: "; PStatus (results_solver_status results)];;
  print [PStr "Termination condition: ";
         PTermination (results_solver_termination_condition results)];;
  print [PStr nl];;
  tell ResultsWrite;;
  print [PNone].

Definition report_other : Py unit :=
  print [PStr nl];;
  print [PStr "Solver status: "; PStatus (results_solver_status results)];;
  print [PStr "Termination condition: ";
         PTermination (results_solver_termination_condition results)].

Definition print_results : Py unit :=
  if bool_decide (results_solver_termination_condition results = TerminationCondition.optimal)
     && bool_decide (results_solver_status results = SolverStatus.ok)
  then report_optimal
  else if bool_decide (results_solver_termination_condition results = TerminationCondition.infeasible)
  then report_infeasible
  else report_other.

End Report.

Section Run.

(** The two collaborators: the loader of the JSON data file and the
    solver. *)
Variable load_data_json_format : string → DataPortal.
Variable cbc : ConcreteModel → SolverResults.

Definition solve_problem_and_print_results (data_file : string) : Py unit :=
  let data := load_data_json_format data_file in
  instance ← create_instance data;
  tell Solve;;
  let results := cbc instance in
  print_results instance results.

End Run.

(** ** Vocabulary of the statements *)

(** The log and the outcome of a computation. *)
Definition events {A} (m : Py A) : list event := m.1.
Definition outcome {A} (m : Py A) : PyErr + A := m.2.

(** The flow variable of an arc, and the arcs that the rules range over. *)
Definition flow (a : arc) : expr := Ref (ref_vQuantityExchangedSourceCustomer a).

Definition outgoing (model : DataPortal) (iSource : string) : list arc :=
  (λ iCustomer, (iSource, iCustomer)) <$>
  filter (λ iCustomer, (iSource, iCustomer) ∈ sSources_sCustomers model)
         (sCustomers model).

Definition incoming (model : DataPortal) (iCustomer : string) : list arc :=
  (λ iSource, (iSource, iCustomer)) <$>
  filter (λ iSource, (iSource, iCustomer) ∈ sSources_sCustomers model)
         (sSources model).

Definition routes (model : DataPortal) : list arc :=
  filter (λ a, a ∈ sSources_sCustomers model)
         (cprod (sSources model) (sCustomers model)).

Definition cost_term (a : arc) : expr :=
  Mul (Ref (ref_pTransportationCosts a)) (flow a).

Definition fixed_flow (a : arc) : relational :=
  Eq (flow a) (Ref (ref_pFixedTransportation a)).

(** The constraints that the rules build. *)
Definition capacity_constraint (model : DataPortal) (iSource : string) : relational :=
  Le (py_sum (flow <$> outgoing model iSource)) (Ref (ref_pSourceProduction iSource)).

Definition demand_constraint (model : DataPortal) (iCustomer : string) : relational :=
  Ge (py_sum (flow <$> incoming model iCustomer)) (Ref (ref_pCustomerDemand iCustomer)).

(** An event is an access in range when it indexes a component inside its
    index set. *)
Definition in_range (model : DataPortal) (e : event) : Prop :=
  match e with
  | GetItem r => in_index_set model r = true
  | _ => False
  end.

(** The meaning of a relational expression at a point [x]. *)
Definition relate (op : float → float → bool)
    (model : DataPortal) (x : arc → float) (l r : expr) : PyErr + bool :=
  match value model x l with
  | inl err => inl err
  | inr a =>
      match value model x r with
      | inl err => inl err
      | inr b => inr (op a b)
      end
  end.

Definition holds (model : DataPortal) (x : arc → float) (c : relational) : PyErr + bool :=
  match c with
  | Le l r => relate fle model x l r
  | Ge l r => relate fge model x l r
  | Eq l r => relate feq model x l r
  end.

(** A point is feasible when it lies in the domain of the variables
    ([NonNegativeReals]) and every constraint of the instance holds. *)
Definition feasible (instance : ConcreteModel) (x : arc → float) : Prop :=
  (∀ a, a ∈ model_vQuantityExchangedSourceCustomer instance → fle zero (x a) = true) ∧
  (∀ i c, model_c01_production_limit_satisfaction instance !! i = Some c →
          holds (model_data instance) x c = inr true) ∧
  (∀ j c, model_c02_demand_limit_satisfaction instance !! j = Some c →
          holds (model_data instance) x c = inr true) ∧
  (∀ a c, model_c03_fixed_transportations instance !! a = Some c →
          holds (model_data instance) x c = inr true).

(** The flow summed over a list of arcs, as [sum] adds it up. *)
Definition total_flow (x : arc → float) (arcs : list arc) : float :=
  fold_left (λ acc a, (acc + x a)%float) arcs zero.

(** The total cost recomputed from the rows of the routes table. *)
Definition recompute_total (model : DataPortal) (rows : list RouteRow.t) : PyErr + float :=
  fold_left
    (λ acc row,
       match acc with
       | inl err => inl err
       | inr t =>
           let a := (RouteRow.Source row, RouteRow.Customer row) in
           match pTransportationCosts model !! a with
           | Some c => inr (t + c * RouteRow.Quantity row)%float
           | None => inl (ValueError (ref_pTransportationCosts a))
           end
       end)
    rows (inr zero).

(** One step of the sum of the objective: the cost of an arc times its flow
    is added to the total so far. *)
Definition add_cost (model : DataPortal) (results : SolverResults)
    (acc : PyErr + float) (a : arc) : PyErr + float :=
  match acc with
  | inl err => inl err
  | inr t =>
      match pTransportationCosts model !! a with
      | Some c => inr (t + c * solution_value results a)%float
      | None => inl (ValueError (ref_pTransportationCosts a))
      end
  end.

(** The events of the sensitivity analysis: a table, a heading of one of the
    three analyses, or a conclusion. *)
Definition sensitivity_event (e : event) : Prop :=
  (∃ columns rows, e = PrintFrame columns rows) ∨
  e = Print [PStr "Sources sensibility analysis:"] ∨
  e = Print [PStr "Customers sensibility analysis:"] ∨
  e = Print [PStr "Routes sensibility analysis:"] ∨
  (∃ sp s, events (print_conclusions_sources_sensibility_analysis sp s) = [e]) ∨
  (∃ sp c, events (print_conclusions_customers_sensibility_analysis sp c) = [e]) ∨
  (∃ rc s c, events (print_conclusions_routes_sensibility_analysis rc s c) = [e]).

(** Referential integrity of the arcs. *)
Definition arcs_closed (model : DataPortal) : Prop :=
  ∀ a, a ∈ sSources_sCustomers model →
       a.1 ∈ sSources model ∧ a.2 ∈ sCustomers model.

(** The rows of the sensitivity tables, from the data and the answer of the
    solver. *)
Definition source_row (data : DataPortal) (results : SolverResults)
    (iSource : string) : SourceRow.t :=
  {| SourceRow.Source := iSource;
     SourceRow.Capacity := default zero (pSourceProduction data !! iSource);
     SourceRow.Shipped := total_flow (solution_value results) (outgoing data iSource);
     SourceRow.Shadow_price :=
       solution_dual results (ref_c01_production_limit_satisfaction iSource) |}.

Definition customer_row (data : DataPortal) (results : SolverResults)
    (iCustomer : string) : CustomerRow.t :=
  {| CustomerRow.Customer := iCustomer;
     CustomerRow.Demand := default zero (pCustomerDemand data !! iCustomer);
     CustomerRow.Shipped := total_flow (solution_value results) (incoming data iCustomer);
     CustomerRow.Shadow_price :=
       solution_dual results (ref_c02_demand_limit_satisfaction iCustomer) |}.

Definition route_row (results : SolverResults) (a : arc) : RouteRow.t :=
  {| RouteRow.Source := a.1;
     RouteRow.Customer := a.2;
     RouteRow.Quantity := solution_value results a;
     RouteRow.Reduced_cost := solution_rc results a |}.

(** The entry of an arc in the table of the quantities exchanged. *)
Definition quantity_entry (data : DataPortal) (results : SolverResults)
    (a : arc) : list (arc * float) :=
  if py_in a (sSources_sCustomers data) && fgt (solution_value results a) zero
  then [(a, solution_value results a)]
  else [].

(** The events of an optimal report, section by section, where the three
    sensitivity tables have the rows [sources], [customers] and [routes]. *)
Definition optimal_report (instance : ConcreteModel) (results : SolverResults)
    (total : float) (quantities : list (arc * float))
    (sources : list SourceRow.t) (customers : list CustomerRow.t)
    (routes : list RouteRow.t) : list event :=
  [Print [PStr "Solver status: "; PStatus (results_solver_status results)];
   Print [PStr "Termination condition: ";
          PTermination (results_solver_termination_condition results); PStr nl];
   Print [PStr "Total transportation cost: "; PNum total; PStr nl];
   Print [PStr "Quantity exchanged between sources and customers:"]]
  ++ events (quantity_rows instance results)
  ++ [PrintFrame ["Source"; "Customer"; "Quantity"]
        ((λ r : arc * float, [PStr r.1.1; PStr r.1.2; PNum r.2]) <$> quantities);
      Print [PStr nl];
      Print [PStr "Sources sensibility analysis:"]]
  ++ events (source_rows instance results)
  ++ [PrintFrame ["Source"; "Capacity"; "Shipped"; "Shadow price"]
        (SourceRow.cells <$> sources)]
  ++ events (source_conclusions sources)
  ++ [Print [PStr nl];
      Print [PStr "Customers sensibility analysis:"]]
  ++ events (customer_rows instance results)
  ++ [PrintFrame ["Customer"; "Demand"; "Shipped"; "Shadow price"]
        (CustomerRow.cells <$> customers)]
  ++ events (customer_conclusions customers)
  ++ [Print [PStr nl];
      Print [PStr "Routes sensibility analysis:"]]
  ++ events (route_rows instance results)
  ++ [PrintFrame ["Source"; "Customer"; "Quantity"; "Reduced cost"]
        (RouteRow.cells <$> routes)]
  ++ events (route_conclusions routes)
  ++ [Print [PStr nl]].

(** The instance built from the data, when the instantiation succeeds. *)
Definition built (data : DataPortal) : ConcreteModel :=
  match outcome (create_instance data) with
  | inr instance => instance
  | inl _ =>
      {| model_data := data;
         model_vQuantityExchangedSourceCustomer := [];
         model_c01_production_limit_satisfaction := ∅;
         model_c02_demand_limit_satisfaction := ∅;
         model_c03_fixed_transportations := ∅;
         model_f_obj := (minimize, Const zero) |}
  end.

(** ** Sample data

    Two sources and three customers; Arn is the only source of Ber and Gou
    the only source of Lon. *)

Definition sample_data : DataPortal := {|
  sSources := ["Arn"; "Gou"];
  sCustomers := ["Ams"; "Ber"; "Lon"];
  sSources_sCustomers := [("Arn", "Ams"); ("Arn", "Ber"); ("Gou", "Ams"); ("Gou", "Lon")];
  pSourceProduction := list_to_map [("Arn", 200%float); ("Gou", 500%float)];
  pCustomerDemand := list_to_map [("Ams", 300%float); ("Ber", 200%float); ("Lon", 100%float)];
  pTransportationCosts :=
    list_to_map [(("Arn", "Ams"), 2.5%float); (("Arn", "Ber"), 2.75%float);
                 (("Gou", "Ams"), 1.75%float); (("Gou", "Lon"), 1.5%float)];
  pFixedTransportation :=
    list_to_map [(("Arn", "Ams"), 0%float); (("Arn", "Ber"), 0%float);
                 (("Gou", "Ams"), 0%float); (("Gou", "Lon"), 0%float)]
|}.

(** One ton is fixed on the route from Arn to Ams. *)
Definition sample_fixed : DataPortal := {|
  sSources := sSources sample_data;
  sCustomers := sCustomers sample_data;
  sSources_sCustomers := sSources_sCustomers sample_data;
  pSourceProduction := pSourceProduction sample_data;
  pCustomerDemand := pCustomerDemand sample_data;
  pTransportationCosts := pTransportationCosts sample_data;
  pFixedTransportation := <[("Arn", "Ams") := 1%float]> (pFixedTransportation sample_data)
|}.

(** The fixed quantity of the route from Gou to Lon is left out. *)
Definition sample_absent : DataPortal := {|
  sSources := sSources sample_data;
  sCustomers := sCustomers sample_data;
  sSources_sCustomers := sSources_sCustomers sample_data;
  pSourceProduction := pSourceProduction sample_data;
  pCustomerDemand := pCustomerDemand sample_data;
  pTransportationCosts := pTransportationCosts sample_data;
  pFixedTransportation := delete ("Gou", "Lon") (pFixedTransportation sample_data)
|}.

(** Malformed data: an arc from a source that is not declared, a negative
    capacity, a negative demand and a negative fixed quantity. *)
Definition sample_malformed : DataPortal := {|
  sSources := ["Arn"; "Gou"];
  sCustomers := ["Ams"; "Ber"; "Lon"];
  sSources_sCustomers :=
    [("Arn", "Ams"); ("Arn", "Ber"); ("Gou", "Ams"); ("Gou", "Lon"); ("Rot", "Ams")];
  pSourceProduction := list_to_map [("Arn", (-200)%float); ("Gou", 500%float)];
  pCustomerDemand := list_to_map [("Ams", 300%float); ("Ber", (-200)%float); ("Lon", 100%float)];
  pTransportationCosts :=
    list_to_map [(("Arn", "Ams"), 2.5%float); (("Arn", "Ber"), 2.75%float);
                 (("Gou", "Ams"), 1.75%float); (("Gou", "Lon"), 1.5%float);
                 (("Rot", "Ams"), 1%float)];
  pFixedTransportation :=
    list_to_map [(("Arn", "Ams"), 0%float); (("Arn", "Ber"), 0%float);
                 (("Gou", "Ams"), (-1)%float); (("Gou", "Lon"), 0%float);
                 (("Rot", "Ams"), 0%float)]
|}.

(** A source (Ley) without outgoing arc and a customer (Par) without
    incoming arc. *)
Definition sample_isolated : DataPortal := {|
  sSources := ["Arn"; "Gou"; "Ley"];
  sCustomers := ["Ams"; "Ber"; "Lon"; "Par"];
  sSources_sCustomers := sSources_sCustomers sample_data;
  pSourceProduction := <["Ley" := 50%float]> (pSourceProduction sample_data);
  pCustomerDemand := <["Par" := 25%float]> (pCustomerDemand sample_data);
  pTransportationCosts := pTransportationCosts sample_data;
  pFixedTransportation := pFixedTransportation sample_data
|}.

(** An answer of the solver on [sample_data]: Arn ships its whole capacity
    to Ber, Gou serves Ams and Lon and keeps some slack. *)
Definition sample_results : SolverResults := {|
  results_solver_status := SolverStatus.ok;
  results_solver_termination_condition := TerminationCondition.optimal;
  solution_value := λ a,
    if decide (a = ("Arn", "Ber")) then 200%float
    else if decide (a = ("Gou", "Ams")) then 300%float
    else if decide (a = ("Gou", "Lon")) then 100%float
    else 0%float;
  solution_dual := λ r,
    match r with
    | ref_c02_demand_limit_satisfaction "Ams" => 1.75%float
    | ref_c02_demand_limit_satisfaction "Ber" => 2.75%float
    | ref_c02_demand_limit_satisfaction "Lon" => 1.5%float
    | _ => 0%float
    end;
  solution_rc := λ a, if decide (a = ("Arn", "Ams")) then 0.75%float else 0%float
|}.

(** Answers with other signs and other outcomes. *)
Definition sample_results_signed (dual rc : float) : SolverResults := {|
  results_solver_status := SolverStatus.ok;
  results_solver_termination_condition := TerminationCondition.optimal;
  solution_value := solution_value sample_results;
  solution_dual := λ _, dual;
  solution_rc := λ _, rc
|}.

Definition sample_results_outcome
    (status : SolverStatus.t) (condition : TerminationCondition.t) : SolverResults := {|
  results_solver_status := status;
  results_solver_termination_condition := condition;
  solution_value := λ _, 0%float;
  solution_dual := λ _, 0%float;
  solution_rc := λ _, 0%float
|}.

(** ** Vocabulary of the further properties *)

(** The flow variables that occur in an expression and in a constraint. *)
Fixpoint vars_of (e : expr) : list arc :=
  match e with
  | Const _ => []
  | Ref (ref_vQuantityExchangedSourceCustomer a) => [a]
  | Ref _ => []
  | Add e1 e2 | Mul e1 e2 => vars_of e1 ++ vars_of e2
  end.

Definition vars_of_relational (c : relational) : list arc :=
  match c with
  | Le l r | Ge l r | Eq l r => vars_of l ++ vars_of r
  end.

(** What the instantiation builds, apart from the data it keeps. *)
Definition components (instance : ConcreteModel) :
    list arc * gmap string relational * gmap string relational *
    gmap arc relational * (sense * expr) :=
  (model_vQuantityExchangedSourceCustomer instance,
   model_c01_production_limit_satisfaction instance,
   model_c02_demand_limit_satisfaction instance,
   model_c03_fixed_transportations instance,
   model_f_obj instance).

(** Two data sets with the same sets and the same fixed quantities. *)
Definition same_structure (d1 d2 : DataPortal) : Prop :=
  sSources d1 = sSources d2 ∧
  sCustomers d1 = sCustomers d2 ∧
  sSources_sCustomers d1 = sSources_sCustomers d2 ∧
  pFixedTransportation d1 = pFixedTransportation d2.

(** The kinds of events. *)
Definition is_solve (e : event) : bool :=
  match e with Solve => true | _ => false end.

Definition is_access (e : event) : bool :=
  match e with GetItem _ => true | _ => false end.

(** The numbers among the arguments of a printed line. *)
Definition amounts (line : list pyobj) : list float :=
  omap (λ o, match o with PNum x => Some x | _ => None end) line.

(** A number that is not a number: the only one that differs from itself. *)
Definition is_nan (x : float) : bool := negb (feq x x).

(** The [Quantity] column of the routes table, summed in the order of the
    rows. *)
Definition sum_quantity (rows : list RouteRow.t) : float :=
  fold_left (λ acc row, (acc + RouteRow.Quantity row)%float) rows zero.

(** The sample data with a negative quantity fixed from Arn to Ams. *)
Definition sample_negative_fixed : DataPortal := {|
  sSources := sSources sample_data;
  sCustomers := sCustomers sample_data;
  sSources_sCustomers := sSources_sCustomers sample_data;
  pSourceProduction := pSourceProduction sample_data;
  pCustomerDemand := pCustomerDemand sample_data;
  pTransportationCosts := pTransportationCosts sample_data;
  pFixedTransportation := <[("Arn", "Ams") := (-1)%float]> (pFixedTransportation sample_data)
|}.

(** The sample data with other capacities, demands and costs, some of them
    left out. *)
Definition sample_other_values : DataPortal := {|
  sSources := sSources sample_data;
  sCustomers := sCustomers sample_data;
  sSources_sCustomers := sSources_sCustomers sample_data;
  pSourceProduction := list_to_map [("Arn", 1%float)];
  pCustomerDemand := ∅;
  pTransportationCosts := list_to_map [(("Gou", "Lon"), (-3)%float)];
  pFixedTransportation := pFixedTransportation sample_data
|}.

(** The sample data with a source (Ley) that has no outgoing arc and a
    negative capacity. *)
Definition sample_isolated_negative : DataPortal := {|
  sSources := sSources sample_isolated;
  sCustomers := sCustomers sample_data;
  sSources_sCustomers := sSources_sCustomers sample_data;
  pSourceProduction := <["Ley" := (-50)%float]> (pSourceProduction sample_data);
  pCustomerDemand := pCustomerDemand sample_data;
  pTransportationCosts := pTransportationCosts sample_data;
  pFixedTransportation := pFixedTransportation sample_data
|}.

(** Every event of a computation has a property. *)
Definition all_events {A} (P : event → Prop) (m : Py A) : Prop :=
  ∀ e, e ∈ events m → P e.

(* ===================================================================== *)

(** * Python numbers: comparisons against zero *)

Section PyFloatFacts.

Lemma zero_SF : Prim2SF zero = S754_zero false.
Proof. reflexivity. Qed.

(** The comparisons against zero, read on the specification of floats. *)
Lemma lt_zero_SF x :
  flt x zero = match Prim2SF x with
              | S754_infinity true | S754_finite true _ _ => true
              | _ => false
              end.
Proof.
  unfold flt. rewrite FloatAxioms.ltb_spec, zero_SF.
  destruct (Prim2SF x) as [[]|[]| |[] m e]; reflexivity.
Qed.

Lemma gt_zero_SF x :
  fgt x zero = match Prim2SF x with
              | S754_infinity false | S754_finite false _ _ => true
              | _ => false
              end.
Proof.
  unfold fgt. rewrite FloatAxioms.ltb_spec, zero_SF.
  destruct (Prim2SF x) as [[]|[]| |[] m e]; reflexivity.
Qed.

Lemma eq_zero_SF x :
  feq x zero = match Prim2SF x with
              | S754_zero _ => true
              | _ => false
              end.
Proof.
  unfold feq. rewrite FloatAxioms.eqb_spec, zero_SF.
  destruct (Prim2SF x) as [[]|[]| |[] m e]; reflexivity.
Qed.

Lemma le_zero_SF x :
  fle x zero = match Prim2SF x with
              | S754_zero _ | S754_infinity true | S754_finite true _ _ => true
              | _ => false
              end.
Proof.
  unfold fle. rewrite FloatAxioms.leb_spec, zero_SF.
  destruct (Prim2SF x) as [[]|[]| |[] m e]; reflexivity.
Qed.

Lemma gt_not_lt x : fgt x zero = true → flt x zero = false.
Proof.
  rewrite gt_zero_SF, lt_zero_SF.
  destruct (Prim2SF x) as [[]|[]| |[] m e]; done.
Qed.

Lemma eq_not_lt x : feq x zero = true → flt x zero = false.
Proof.
  rewrite eq_zero_SF, lt_zero_SF.
  destruct (Prim2SF x) as [[]|[]| |[] m e]; done.
Qed.

Lemma eq_not_gt x : feq x zero = true → fgt x zero = false.
Proof.
  rewrite eq_zero_SF, gt_zero_SF.
  destruct (Prim2SF x) as [[]|[]| |[] m e]; done.
Qed.

Lemma gt_not_le x : fgt x zero = true → fle x zero = false.
Proof.
  rewrite gt_zero_SF, le_zero_SF.
  destruct (Prim2SF x) as [[]|[]| |[] m e]; done.
Qed.

Lemma gt_not_nan x : fgt x zero = true → is_nan x = false.
Proof.
  unfold is_nan, feq. rewrite gt_zero_SF, FloatAxioms.eqb_spec.
  destruct (Prim2SF x) as [[]|[]| |[] m e]; try done;
    intros _; unfold SFeqb, SFcompare; simpl;
    by rewrite Z.compare_refl, Pos.compare_cont_refl.
Qed.

Lemma nan_SF x :
  is_nan x = match Prim2SF x with S754_nan => true | _ => false end.
Proof.
  unfold is_nan, feq. rewrite FloatAxioms.eqb_spec.
  destruct (Prim2SF x) as [[]|[]| |[] m e]; try done;
    unfold SFeqb, SFcompare; simpl;
    by rewrite Z.compare_refl, Pos.compare_cont_refl.
Qed.

Lemma lt_not_gt x : flt x zero = true → fgt x zero = false.
Proof.
  intros Hlt. destruct (fgt x zero) eqn:Hgt; [|done].
  apply gt_not_lt in Hgt. congruence.
Qed.

Lemma lt_not_eq x : flt x zero = true → feq x zero = false.
Proof.
  intros Hlt. destruct (feq x zero) eqn:Heq; [|done].
  apply eq_not_lt in Heq. congruence.
Qed.

Lemma gt_not_eq x : fgt x zero = true → feq x zero = false.
Proof.
  intros Hgt. destruct (feq x zero) eqn:Heq; [|done].
  apply eq_not_gt in Heq. congruence.
Qed.

Lemma nan_no_sign x :
  is_nan x = true → flt x zero = false ∧ fgt x zero = false ∧ feq x zero = false.
Proof.
  rewrite nan_SF, lt_zero_SF, gt_zero_SF, eq_zero_SF.
  destruct (Prim2SF x) as [[]|[]| |[] m e]; done.
Qed.

Lemma no_sign x :
  flt x zero = false → fgt x zero = false →
  feq x zero = true ∨ is_nan x = true.
Proof.
  rewrite nan_SF, lt_zero_SF, gt_zero_SF, eq_zero_SF.
  destruct (Prim2SF x) as [[]|[]| |[] m e]; auto.
Qed.

Lemma abs_of_negative x : flt x zero = true → fgt (fabs x) zero = true.
Proof.
  rewrite lt_zero_SF, gt_zero_SF. unfold fabs. rewrite FloatAxioms.abs_spec.
  destruct (Prim2SF x) as [[]|[]| |[] m e]; done.
Qed.

(** A number that is not negative equals no negative number and no number
    that is not a number. *)
Lemma eq_of_nonnegative x v :
  fle zero x = true → feq x v = true →
  flt v zero = false ∧ is_nan v = false.
Proof.
  rewrite lt_zero_SF, nan_SF. unfold fle, feq.
  rewrite FloatAxioms.leb_spec, FloatAxioms.eqb_spec, zero_SF.
  destruct (Prim2SF x) as [[]|[]| |[] mx ex], (Prim2SF v) as [[]|[]| |[] mv ev];
    done.
Qed.

Lemma zero_le_SF x :
  fle zero x = match Prim2SF x with
               | S754_zero _ | S754_infinity false | S754_finite false _ _ => true
               | _ => false
               end.
Proof.
  unfold fle. rewrite FloatAxioms.leb_spec, zero_SF.
  destruct (Prim2SF x) as [[]|[]| |[] m e]; reflexivity.
Qed.

Lemma zero_not_le x : flt x zero = true ∨ is_nan x = true → fle zero x = false.
Proof.
  rewrite lt_zero_SF, nan_SF, zero_le_SF.
  destruct (Prim2SF x) as [[]|[]| |[] m e]; by intros [?|?].
Qed.

End PyFloatFacts.

(** * Reasoning about Python computations *)

Section PyMonad.

Context {A B : Type}.
Implicit Types (m : Py A) (f : A → Py B).

Lemma events_bind m f :
  events (m ≫= f) =
  events m ++ match outcome m with inr a => events (f a) | inl _ => [] end.
Proof.
  destruct m as [log [e|a]]; simpl.
  - by rewrite app_nil_r.
  - by destruct (f a).
Qed.

Lemma outcome_bind m f :
  outcome (m ≫= f) =
  match outcome m with inr a => outcome (f a) | inl e => inl e end.
Proof.
  destruct m as [log [e|a]]; simpl; [done|]. by destruct (f a).
Qed.

Lemma Py_eta (m : Py A) : m = (events m, outcome m).
Proof. by destruct m. Qed.

Lemma bind_inr m f log b :
  m ≫= f = (log, inr b) →
  ∃ log1 a log2, m = (log1, inr a) ∧ f a = (log2, inr b) ∧ log = log1 ++ log2.
Proof.
  destruct m as [log1 [e|a]]; simpl; [done|].
  destruct (f a) as [log2 r] eqn:Hf. intros [= <- ->]. eauto 6.
Qed.

Lemma bind_ok m f log1 a :
  m = (log1, inr a) → m ≫= f = (log1 ++ events (f a), outcome (f a)).
Proof. intros ->. simpl. by destruct (f a). Qed.

Lemma bind_err m f log1 e :
  m = (log1, inl e) → m ≫= f = (log1, inl e).
Proof. by intros ->. Qed.

End PyMonad.

Section MapM.

Context {A B : Type}.
Implicit Types (f : A → Py B) (l : list A).

Lemma mapM_cons f x l :
  mapM f (x :: l) = (y ← f x; k ← mapM f l; mret (y :: k)).
Proof. done. Qed.

(** When every call succeeds, so does the traversal: the results come in
    order and the logs are concatenated. *)
Lemma mapM_ok f l (g : A → list event) (h : A → B) :
  (∀ x, x ∈ l → f x = (g x, inr (h x))) →
  mapM f l = (concat (g <$> l), inr (h <$> l)).
Proof.
  induction l as [|x l IH]; intros Hf; [done|].
  rewrite mapM_cons, (bind_ok _ _ _ _ (Hf x (list_elem_of_here _ _))).
  rewrite IH by (intros; apply Hf; by constructor).
  simpl. by rewrite app_nil_r.
Qed.

Lemma mapM_inr f l log ys :
  mapM f l = (log, inr ys) →
  Forall2 (λ x y, outcome (f x) = inr y) l ys ∧
  log = concat ((events ∘ f) <$> l).
Proof.
  revert log ys. induction l as [|x l IH]; intros log ys.
  - intros [= <- <-]. by split; constructor.
  - rewrite mapM_cons. intros (l1 & y & l2 & Hx & Hrest & ->)%bind_inr.
    apply bind_inr in Hrest as (l3 & k & l4 & Hk & Hret & ->).
    injection Hret as <- <-. apply IH in Hk as [Hk ->].
    split; [constructor; [by rewrite Hx|done]|].
    simpl. rewrite Hx. simpl. by rewrite app_nil_r.
Qed.

(** Whatever the outcome, the log of a traversal is made of logs of the
    calls. *)
Lemma mapM_events f l e :
  e ∈ events (mapM f l) → ∃ x, x ∈ l ∧ e ∈ events (f x).
Proof.
  induction l as [|x l IH]; [by intros ?%elem_of_nil|].
  rewrite mapM_cons, events_bind. intros [He|He]%elem_of_app.
  - exists x. split; [constructor|done].
  - destruct (outcome (f x)); [by apply elem_of_nil in He|].
    rewrite events_bind in He. apply elem_of_app in He as [He|He].
    + destruct (IH He) as (x' & ? & ?). exists x'. split; [by constructor|done].
    + destruct (outcome (mapM f l)); by apply elem_of_nil in He.
Qed.

Lemma mapM_outcome_inl f l err :
  outcome (mapM f l) = inl err → ∃ x, x ∈ l ∧ outcome (f x) = inl err.
Proof.
  induction l as [|x l IH]; [done|].
  rewrite mapM_cons, outcome_bind.
  destruct (outcome (f x)) as [e|y] eqn:Hx.
  - intros [= ->]. exists x. split; [constructor|done].
  - rewrite outcome_bind. destruct (outcome (mapM f l)) as [e|k]; [|done].
    intros [= ->]. destruct IH as (x' & ? & ?); [done|].
    exists x'. split; [by constructor|done].
Qed.

End MapM.

(** * The formulation *)

Section Formulation.

Variable model : DataPortal.

Lemma py_in_true {A} `{EqDecision A} (x : A) (s : list A) :
  py_in x s = true ↔ x ∈ s.
Proof. unfold py_in. by rewrite bool_decide_eq_true. Qed.

Lemma py_in_false {A} `{EqDecision A} (x : A) (s : list A) :
  py_in x s = false ↔ x ∉ s.
Proof. unfold py_in. by rewrite bool_decide_eq_false. Qed.

Lemma elem_of_concat {A} (x : A) (ls : list (list A)) :
x ∈ concat ls ↔ ∃ l, x ∈ l ∧ l ∈ ls.
Proof.
induction ls as [|l0 ls IH]; simpl.
- split; [by intros ?%elem_of_nil|by intros (l & _ & ?%elem_of_nil)].
- rewrite elem_of_app, IH. split.
  + intros [?|(l & ? & ?)]; [exists l0|exists l]; split; try done; by constructor.
  + intros (l & Hx & [->|?]%elem_of_cons); [by left|right; by exists l].
Qed.

Lemma concat_singletons {A B} (g : A → B) (l : list A) :
  concat ((λ x, [g x]) <$> l) = g <$> l.
Proof. induction l as [|x l IH]; [done|]. csimpl. by rewrite IH. Qed.

Lemma getitem_ok r :
  in_index_set model r = true → getitem model r = ([GetItem r], inr (Ref r)).
Proof. unfold getitem. by intros ->. Qed.

Lemma getitem_flow a :
  a ∈ sSources_sCustomers model →
  getitem model (ref_vQuantityExchangedSourceCustomer a) =
  ([GetItem (ref_vQuantityExchangedSourceCustomer a)], inr (flow a)).
Proof. intros Ha. apply getitem_ok. by apply py_in_true. Qed.

Lemma outgoing_spec iSource a :
  a ∈ outgoing model iSource ↔
  a.1 = iSource ∧ a.2 ∈ sCustomers model ∧ a ∈ sSources_sCustomers model.
Proof.
  unfold outgoing. rewrite list_elem_of_fmap. split.
  - intros (c & -> & [? ?]%list_elem_of_filter). done.
  - destruct a as [i c]. simpl. intros (-> & ? & ?).
    exists c. split; [done|]. by apply list_elem_of_filter.
Qed.

Lemma incoming_spec iCustomer a :
  a ∈ incoming model iCustomer ↔
  a.2 = iCustomer ∧ a.1 ∈ sSources model ∧ a ∈ sSources_sCustomers model.
Proof.
  unfold incoming. rewrite list_elem_of_fmap. split.
  - intros (c & -> & [? ?]%list_elem_of_filter). done.
  - destruct a as [i c]. simpl. intros (-> & ? & ?).
    exists i. split; [done|]. by apply list_elem_of_filter.
Qed.

Lemma routes_spec a :
  a ∈ routes model ↔
  a ∈ sSources_sCustomers model ∧ a.1 ∈ sSources model ∧ a.2 ∈ sCustomers model.
Proof. unfold routes. by rewrite list_elem_of_filter, list_elem_of_cprod. Qed.

(** The capacity rule, computed. *)
Lemma c01_eq iSource :
  iSource ∈ sSources model →
  c01_production_limit_satisfaction model iSource =
  ((GetItem ∘ ref_vQuantityExchangedSourceCustomer <$> outgoing model iSource)
     ++ [GetItem (ref_pSourceProduction iSource)],
   inr (Rel (Le (py_sum (flow <$> outgoing model iSource))
                (Ref (ref_pSourceProduction iSource))))).
Proof.
  intros Hi. unfold c01_production_limit_satisfaction, outgoing.
  erewrite bind_ok; last first.
  { apply (mapM_ok _ _
      (λ c, [GetItem (ref_vQuantityExchangedSourceCustomer (iSource, c))])
      (λ c, flow (iSource, c))).
    intros c [? _]%list_elem_of_filter. by apply getitem_flow. }
  rewrite (bind_ok _ _ [GetItem (ref_pSourceProduction iSource)]
             (Ref (ref_pSourceProduction iSource)))
    by (apply getitem_ok; by apply py_in_true).
  simpl. by rewrite concat_singletons, <- !list_fmap_compose.
Qed.

(** The demand rule, computed. *)
Lemma c02_eq iCustomer :
  iCustomer ∈ sCustomers model →
  c02_demand_limit_satisfaction model iCustomer =
  ((GetItem ∘ ref_vQuantityExchangedSourceCustomer <$> incoming model iCustomer)
     ++ [GetItem (ref_pCustomerDemand iCustomer)],
   inr (Rel (Ge (py_sum (flow <$> incoming model iCustomer))
                (Ref (ref_pCustomerDemand iCustomer))))).
Proof.
  intros Hi. unfold c02_demand_limit_satisfaction, incoming.
  erewrite bind_ok; last first.
  { apply (mapM_ok _ _
      (λ s, [GetItem (ref_vQuantityExchangedSourceCustomer (s, iCustomer))])
      (λ s, flow (s, iCustomer))).
    intros c [? _]%list_elem_of_filter. by apply getitem_flow. }
  rewrite (bind_ok _ _ [GetItem (ref_pCustomerDemand iCustomer)]
             (Ref (ref_pCustomerDemand iCustomer)))
    by (apply getitem_ok; by apply py_in_true).
  simpl. by rewrite concat_singletons, <- !list_fmap_compose.
Qed.

(** The fixed-flow rule, by cases. *)
Lemma c03_undeclared iSource iCustomer :
  (iSource, iCustomer) ∉ sSources_sCustomers model →
  c03_fixed_transportations model iSource iCustomer = ([], inr Skip).
Proof.
  intros Ha%py_in_false. unfold c03_fixed_transportations. by rewrite Ha.
Qed.

Lemma c03_absent iSource iCustomer :
  (iSource, iCustomer) ∈ sSources_sCustomers model →
  pFixedTransportation model !! (iSource, iCustomer) = None →
  c03_fixed_transportations model iSource iCustomer =
  ([GetItem (ref_pFixedTransportation (iSource, iCustomer))],
   inl (ValueError (ref_pFixedTransportation (iSource, iCustomer)))).
Proof.
  intros Ha%py_in_true Hv. unfold c03_fixed_transportations, getitem.
  simpl. rewrite !Ha. simpl. by rewrite Hv.
Qed.

Lemma c03_declared iSource iCustomer v :
  (iSource, iCustomer) ∈ sSources_sCustomers model →
  pFixedTransportation model !! (iSource, iCustomer) = Some v →
  c03_fixed_transportations model iSource iCustomer =
  if truthy v
  then ([GetItem (ref_pFixedTransportation (iSource, iCustomer));
         GetItem (ref_vQuantityExchangedSourceCustomer (iSource, iCustomer));
         GetItem (ref_pFixedTransportation (iSource, iCustomer))],
        inr (Rel (fixed_flow (iSource, iCustomer))))
  else ([GetItem (ref_pFixedTransportation (iSource, iCustomer))], inr Skip).
Proof.
  intros Ha%py_in_true Hv. unfold c03_fixed_transportations, getitem.
  simpl. rewrite !Ha. simpl. rewrite Hv. simpl. by destruct (truthy v).
Qed.

(** The objective rule, computed. *)
Lemma obj_expression_eq :
  obj_expression model =
  (concat ((λ a, [GetItem (ref_pTransportationCosts a);
                  GetItem (ref_vQuantityExchangedSourceCustomer a)])
             <$> routes model),
   inr (py_sum (cost_term <$> routes model))).
Proof.
  unfold obj_expression. fold (routes model).
  erewrite bind_ok; last first.
  { apply (mapM_ok _ _
      (λ a, [GetItem (ref_pTransportationCosts a);
             GetItem (ref_vQuantityExchangedSourceCustomer a)])
      cost_term).
    intros a [Ha _]%routes_spec.
    rewrite (bind_ok _ _ [GetItem (ref_pTransportationCosts a)]
               (Ref (ref_pTransportationCosts a)))
      by (apply getitem_ok; by apply py_in_true).
    by rewrite (bind_ok _ _ _ _ (getitem_flow a Ha)). }
  simpl. by rewrite app_nil_r.
Qed.

End Formulation.

(** * Constraint components *)

Section Construct.

Context {K : Type} `{Countable K}.
Implicit Types (rule : K → Py rule_result) (index_set : list K).

Lemma construct_cons rule k rest :
  construct rule (k :: rest) =
  (r ← rule k; m ← construct rule rest;
   mret (match r with Rel c => <[k:=c]> m | Skip => m end)).
Proof. done. Qed.

Lemma construct_events rule index_set e :
  e ∈ events (construct rule index_set) →
  ∃ k, k ∈ index_set ∧ e ∈ events (rule k).
Proof.
  induction index_set as [|k rest IH]; [by intros ?%elem_of_nil|].
  rewrite construct_cons, events_bind. intros [He|He]%elem_of_app.
  - exists k. split; [constructor|done].
  - destruct (outcome (rule k)); [by apply elem_of_nil in He|].
    rewrite events_bind in He. apply elem_of_app in He as [He|He].
    + destruct (IH He) as (k' & ? & ?). exists k'. split; [by constructor|done].
    + destruct (outcome (construct rule rest)); by apply elem_of_nil in He.
Qed.

Lemma construct_outcome_inl rule index_set err :
  outcome (construct rule index_set) = inl err →
  ∃ k, k ∈ index_set ∧ outcome (rule k) = inl err.
Proof.
  induction index_set as [|k rest IH]; [done|].
  rewrite construct_cons, outcome_bind.
  destruct (outcome (rule k)) as [e|r] eqn:Hk.
  - intros [= ->]. exists k. split; [constructor|done].
  - rewrite outcome_bind.
    destruct (outcome (construct rule rest)) as [e|m]; [|done].
    intros [= ->]. destruct IH as (k' & ? & ?); [done|].
    exists k'. split; [by constructor|done].
Qed.

Lemma construct_outcome_inr rule index_set :
  (∀ k, k ∈ index_set → ∃ r, outcome (rule k) = inr r) →
  ∃ m, outcome (construct rule index_set) = inr m.
Proof.
  intros Hok. destruct (outcome (construct rule index_set)) as [e|m] eqn:Hc; [|eauto].
  apply construct_outcome_inl in Hc as (k & Hk & Hr).
  destruct (Hok k Hk) as [r Hr']. congruence.
Qed.

(** The component holds exactly the entries that the rule does not skip,
    one for each such member of the index set. *)
Lemma construct_lookup rule index_set log m k c :
  construct rule index_set = (log, inr m) →
  m !! k = Some c ↔ k ∈ index_set ∧ outcome (rule k) = inr (Rel c).
Proof.
  revert log m. induction index_set as [|k0 rest IH]; intros log m.
  - intros [= <- <-]. rewrite lookup_empty, elem_of_nil.
    split; [done|by intros [[] _]].
  - rewrite construct_cons. intros (l1 & r & l2 & Hr & Hrest & ->)%bind_inr.
    apply bind_inr in Hrest as (l3 & m' & l4 & Hm' & Hret & ->).
    injection Hret as <- <-. specialize (IH _ _ Hm').
    rewrite elem_of_cons. destruct (decide (k = k0)) as [->|Hne].
    + destruct r as [c0|].
      * rewrite lookup_insert_eq, Hr. simpl.
        split; [intros [= ->]; split; [by left|done]|by intros [_ [= ->]]].
      * rewrite IH, Hr. simpl. split; by intros [_ [=]].
    + assert ((k = k0 ∨ k ∈ rest) ↔ k ∈ rest) as -> by (split; [by intros [?|?]|by right]).
      destruct r as [c0|]; [by rewrite lookup_insert_ne|done].
Qed.

End Construct.

Section Instance.

Variable data : DataPortal.

Lemma c03_outcome_cases (a : arc) :
  outcome (c03_fixed_transportations data a.1 a.2) =
  if py_in a (sSources_sCustomers data)
  then match pFixedTransportation data !! a with
       | Some v => inr (if truthy v then Rel (fixed_flow a) else Skip)
       | None => inl (ValueError (ref_pFixedTransportation a))
       end
  else inr Skip.
Proof.
  destruct a as [i j]. simpl.
  destruct (py_in (i, j) (sSources_sCustomers data)) eqn:Ha.
  - apply py_in_true in Ha.
    destruct (pFixedTransportation data !! (i, j)) as [v|] eqn:Hv.
    + rewrite (c03_declared _ _ _ v Ha Hv). by destruct (truthy v).
    + by rewrite (c03_absent _ _ _ Ha Hv).
  - apply py_in_false in Ha. by rewrite (c03_undeclared _ _ _ Ha).
Qed.

(** What a successful instantiation has built. *)
Lemma create_instance_inr log instance :
  create_instance data = (log, inr instance) →
  model_data instance = data ∧
  model_vQuantityExchangedSourceCustomer instance = sSources_sCustomers data ∧
  model_f_obj instance = (minimize, py_sum (cost_term <$> routes data)) ∧
  (∀ i c, model_c01_production_limit_satisfaction instance !! i = Some c ↔
          i ∈ sSources data ∧ c = capacity_constraint data i) ∧
  (∀ j c, model_c02_demand_limit_satisfaction instance !! j = Some c ↔
          j ∈ sCustomers data ∧ c = demand_constraint data j) ∧
  (∀ a c, model_c03_fixed_transportations instance !! a = Some c ↔
          a ∈ routes data ∧
          ∃ v, pFixedTransportation data !! a = Some v ∧ truthy v = true ∧
               c = fixed_flow a).
Proof.
  unfold create_instance.
  intros (l1 & c01 & l1' & H1 & Hrest & ->)%bind_inr.
  apply bind_inr in Hrest as (l2 & c02 & l2' & H2 & Hrest & ->).
  apply bind_inr in Hrest as (l3 & c03 & l3' & H3 & Hrest & ->).
  rewrite obj_expression_eq in Hrest. simpl in Hrest.
  injection Hrest as <- <-. simpl.
  split_and!; try done.
  - intros i c. rewrite (construct_lookup _ _ _ _ _ _ H1).
    split.
    + intros [Hi Hc]. rewrite (c01_eq _ _ Hi) in Hc. by injection Hc as <-.
    + intros [Hi ->]. by rewrite (c01_eq _ _ Hi).
  - intros j c. rewrite (construct_lookup _ _ _ _ _ _ H2).
    split.
    + intros [Hj Hc]. rewrite (c02_eq _ _ Hj) in Hc. by injection Hc as <-.
    + intros [Hj ->]. by rewrite (c02_eq _ _ Hj).
  - intros a c. rewrite (construct_lookup _ _ _ _ _ _ H3).
    rewrite c03_outcome_cases, routes_spec, list_elem_of_cprod.
    destruct (py_in a (sSources_sCustomers data)) eqn:Ha.
    + apply py_in_true in Ha.
      destruct (pFixedTransportation data !! a) as [v|].
      * destruct (truthy v) eqn:Hv; split.
        -- intros [[? ?] [= <-]]. split; [done|]. by exists v.
        -- by intros [(_ & ? & ?) (v0 & [= <-] & _ & ->)].
        -- by intros [_ [=]].
        -- intros [_ (v0 & [= <-] & Hv0 & _)]. congruence.
      * split; [by intros [_ [=]]|by intros [_ (v0 & [=] & _)]].
    + apply py_in_false in Ha. split; [by intros [_ [=]]|by intros [[? _] _]].
Qed.

(** Instantiation fails only in the fixed-flow rule, at a declared arc
    between a source and a customer whose fixed quantity has no value. *)
Lemma create_instance_inl err :
  outcome (create_instance data) = inl err →
  ∃ a, a ∈ routes data ∧ pFixedTransportation data !! a = None ∧
       err = ValueError (ref_pFixedTransportation a).
Proof.
  unfold create_instance. rewrite outcome_bind.
  destruct (outcome (construct _ (sSources data))) as [e|c01] eqn:H1.
  { apply construct_outcome_inl in H1 as (i & Hi & Hr).
    by rewrite (c01_eq _ _ Hi) in Hr. }
  rewrite outcome_bind.
  destruct (outcome (construct _ (sCustomers data))) as [e|c02] eqn:H2.
  { apply construct_outcome_inl in H2 as (j & Hj & Hr).
    by rewrite (c02_eq _ _ Hj) in Hr. }
  rewrite outcome_bind.
  destruct (outcome (construct _ (cprod _ _))) as [e|c03] eqn:H3.
  - intros [= ->].
    apply construct_outcome_inl in H3 as (a & Ha & Hr).
    rewrite c03_outcome_cases in Hr. exists a.
    destruct (py_in a (sSources_sCustomers data)) eqn:Hin; [|done].
    apply py_in_true in Hin.
    destruct (pFixedTransportation data !! a) as [v|]; [done|].
    injection Hr as <-. split_and!; try done.
    apply routes_spec. by apply list_elem_of_cprod in Ha.
  - rewrite outcome_bind, obj_expression_eq. done.
Qed.

Lemma create_instance_ok :
  (∀ a, a ∈ routes data → is_Some (pFixedTransportation data !! a)) →
  ∃ log instance, create_instance data = (log, inr instance).
Proof.
  intros Hfixed. rewrite (Py_eta (create_instance data)).
  destruct (outcome (create_instance data)) as [e|instance] eqn:Hc; [|eauto].
  apply create_instance_inl in Hc as (a & Ha & Hnone & _).
  destruct (Hfixed a Ha) as [v Hv]. congruence.
Qed.

End Instance.

(** * The accesses of the formulation *)

Section Accesses.

Variable data : DataPortal.

Lemma events_bind_elem {A B} (m : Py A) (f : A → Py B) e :
  e ∈ events (m ≫= f) →
  e ∈ events m ∨ ∃ a, outcome m = inr a ∧ e ∈ events (f a).
Proof.
  rewrite events_bind. intros [He|He]%elem_of_app; [by left|].
  destruct (outcome m) as [err|a]; [by apply elem_of_nil in He|].
  right. by exists a.
Qed.

Lemma in_range_flow (a : arc) :
  a ∈ sSources_sCustomers data →
  in_range data (GetItem (ref_vQuantityExchangedSourceCustomer a)).
Proof. intros Ha. by apply py_in_true. Qed.

Lemma c01_in_range iSource e :
  iSource ∈ sSources data →
  e ∈ events (c01_production_limit_satisfaction data iSource) →
  in_range data e.
Proof.
  intros Hi. rewrite (c01_eq _ _ Hi). unfold events. simpl.
  intros [He|He]%elem_of_app.
  - apply list_elem_of_fmap in He as (a & -> & Ha).
    apply in_range_flow. by apply outgoing_spec in Ha as (_ & _ & ?).
  - apply list_elem_of_singleton in He as ->. by apply py_in_true.
Qed.

Lemma c02_in_range iCustomer e :
  iCustomer ∈ sCustomers data →
  e ∈ events (c02_demand_limit_satisfaction data iCustomer) →
  in_range data e.
Proof.
  intros Hj. rewrite (c02_eq _ _ Hj). unfold events. simpl.
  intros [He|He]%elem_of_app.
  - apply list_elem_of_fmap in He as (a & -> & Ha).
    apply in_range_flow. by apply incoming_spec in Ha as (_ & _ & ?).
  - apply list_elem_of_singleton in He as ->. by apply py_in_true.
Qed.

Lemma c03_in_range iSource iCustomer e :
  e ∈ events (c03_fixed_transportations data iSource iCustomer) →
  in_range data e.
Proof.
  destruct (decide ((iSource, iCustomer) ∈ sSources_sCustomers data)) as [Ha|Ha].
  - assert (in_index_set data (ref_pFixedTransportation (iSource, iCustomer)) = true)
      as Hp by (by apply py_in_true).
    destruct (pFixedTransportation data !! (iSource, iCustomer)) as [v|] eqn:Hv.
    + rewrite (c03_declared _ _ _ v Ha Hv).
      destruct (truthy v); unfold events; simpl; intros He;
        repeat (apply elem_of_cons in He as [->|He]);
        try (by apply elem_of_nil in He); try done;
        by apply in_range_flow.
    + rewrite (c03_absent _ _ _ Ha Hv). unfold events. simpl.
      by intros ->%list_elem_of_singleton.
  - rewrite (c03_undeclared _ _ _ Ha). by intros ?%elem_of_nil.
Qed.

Lemma obj_expression_in_range e :
  e ∈ events (obj_expression data) → in_range data e.
Proof.
  rewrite obj_expression_eq. unfold events. simpl.
  intros (l & Hl & (a & -> & [Ha _]%routes_spec)%list_elem_of_fmap)%elem_of_concat.
  apply elem_of_cons in Hl as [->|Hl]; [by apply py_in_true|].
  apply list_elem_of_singleton in Hl as ->. by apply in_range_flow.
Qed.

Lemma create_instance_in_range e :
  e ∈ events (create_instance data) → in_range data e.
Proof.
  unfold create_instance.
  intros [He|(c01 & _ & He)]%events_bind_elem.
  { apply construct_events in He as (i & Hi & He). by eapply c01_in_range. }
  apply events_bind_elem in He as [He|(c02 & _ & He)].
  { apply construct_events in He as (j & Hj & He). by eapply c02_in_range. }
  apply events_bind_elem in He as [He|(c03 & _ & He)].
  { apply construct_events in He as (a & _ & He). by eapply c03_in_range. }
  apply events_bind_elem in He as [He|(obj & _ & He)].
  { by apply obj_expression_in_range. }
  by apply elem_of_nil in He.
Qed.

End Accesses.

(** * The meaning of the sums *)

Section Sums.

Variable model : DataPortal.
Variable x : arc → float.

Lemma value_fold_flows (l : list arc) (e : expr) (acc : float) :
  value model x e = inr acc →
  value model x (fold_left Add (flow <$> l) e) =
  inr (fold_left (λ acc a, (acc + x a)%float) l acc).
Proof.
  revert e acc. induction l as [|a l IH]; intros e acc He; [done|].
  csimpl. apply IH. simpl. by rewrite He.
Qed.

Lemma value_py_sum_flows (l : list arc) :
  value model x (py_sum (flow <$> l)) = inr (total_flow x l).
Proof. by apply value_fold_flows. Qed.

Lemma holds_capacity iSource cap :
  pSourceProduction model !! iSource = Some cap →
  holds model x (capacity_constraint model iSource) =
  inr (fle (total_flow x (outgoing model iSource)) cap).
Proof.
  intros Hcap. unfold capacity_constraint, holds, relate.
  rewrite value_py_sum_flows. simpl. by rewrite Hcap.
Qed.

Lemma holds_demand iCustomer d :
  pCustomerDemand model !! iCustomer = Some d →
  holds model x (demand_constraint model iCustomer) =
  inr (fge (total_flow x (incoming model iCustomer)) d).
Proof.
  intros Hd. unfold demand_constraint, holds, relate.
  rewrite value_py_sum_flows. simpl. by rewrite Hd.
Qed.

Lemma outgoing_nil iSource :
  (∀ j, (iSource, j) ∉ sSources_sCustomers model) → outgoing model iSource = [].
Proof.
  intros Hno. destruct (outgoing model iSource) as [|a l] eqn:Hout; [done|].
  assert (a ∈ outgoing model iSource) as Ha by (rewrite Hout; constructor).
  apply outgoing_spec in Ha as (<- & _ & Ha). destruct a as [i j]. by apply Hno in Ha.
Qed.

Lemma incoming_nil iCustomer :
  (∀ i, (i, iCustomer) ∉ sSources_sCustomers model) → incoming model iCustomer = [].
Proof.
  intros Hno. destruct (incoming model iCustomer) as [|a l] eqn:Hin; [done|].
  assert (a ∈ incoming model iCustomer) as Ha by (rewrite Hin; constructor).
  apply incoming_spec in Ha as (<- & _ & Ha). destruct a as [i j]. by apply Hno in Ha.
Qed.

End Sums.

(** * The fixed-flow family *)

Lemma truthy_nonzero v : truthy v = true ↔ feq v zero = false.
Proof. unfold truthy. by destruct (feq v zero). Qed.




(** C10.  At a pair that is not a declared arc the fixed-flow rule returns
    [Skip] with an empty log: it evaluates nothing, in particular not
    [pFixedTransportation] at that pair.  Every access of the instantiation
    indexes its component inside the index set, so the parameters and the
    variable indexed by the arcs are only read at declared arcs and no
    [KeyError] is raised; the flow variables of the instance are those of the
    declared arcs and the fixed-flow family has entries at declared arcs
    only. *)
Theorem c03_skips_without_access data :
  (∀ i j, (i, j) ∉ sSources_sCustomers data →
          c03_fixed_transportations data i j = ([], inr Skip)) ∧
  (∀ e, e ∈ events (create_instance data) → in_range data e) ∧
  (∀ a, GetItem (ref_pFixedTransportation a) ∈ events (create_instance data) →
        a ∈ sSources_sCustomers data) ∧
  (∀ a, GetItem (ref_vQuantityExchangedSourceCustomer a) ∈ events (create_instance data) →
        a ∈ sSources_sCustomers data) ∧
  (∀ r, outcome (create_instance data) ≠ inl (KeyError r)) ∧
  (∀ log instance, create_instance data = (log, inr instance) →
     model_vQuantityExchangedSourceCustomer instance = sSources_sCustomers data ∧
     ∀ a, is_Some (model_c03_fixed_transportations instance !! a) →
          a ∈ sSources_sCustomers data).
Proof.
  split_and!.
  - intros i j Ha. by apply c03_undeclared.
  - apply create_instance_in_range.
  - intros a Ha%create_instance_in_range. by apply py_in_true in Ha.
  - intros a Ha%create_instance_in_range. by apply py_in_true in Ha.
  - intros r Hr. by apply create_instance_inl in Hr as (a & _ & _ & [=]).
  - intros log instance Hc.
    apply create_instance_inr in Hc as (_ & Hv & _ & _ & _ & H3).
    split; [done|]. intros a [c Hc]. apply H3 in Hc as [Ha _].
    by apply routes_spec in Ha as [? _].
Qed.

Lemma c03_skips_without_access_witness :
  c03_fixed_transportations sample_fixed "Arn" "Lon" = ([], inr Skip) ∧
  model_vQuantityExchangedSourceCustomer (built sample_fixed) =
    sSources_sCustomers sample_fixed.
Proof.
  destruct (c03_skips_without_access sample_fixed) as (Hskip & _ & _ & _ & _ & Hbuilt).
  split.
  - apply Hskip. compute_done.
  - apply (Hbuilt (events (create_instance sample_fixed))). vm_compute. reflexivity.
Defined.

(** * Malformed data *)

Section Validation.

Variable load_data_json_format : string → DataPortal.
Variable cbc : ConcreteModel → SolverResults.

Lemma run_after_instance data_file log instance :
  create_instance (load_data_json_format data_file) = (log, inr instance) →
  solve_problem_and_print_results load_data_json_format cbc data_file =
  (log ++ Solve :: events (print_results instance (cbc instance)),
   outcome (print_results instance (cbc instance))).
Proof.
  intros Hc. unfold solve_problem_and_print_results.
  rewrite (bind_ok _ _ _ _ Hc). simpl.
  by destruct (print_results instance (cbc instance)).
Qed.

Lemma run_without_instance data_file err :
  outcome (create_instance (load_data_json_format data_file)) = inl err →
  solve_problem_and_print_results load_data_json_format cbc data_file =
  (events (create_instance (load_data_json_format data_file)), inl err).
Proof.
  intros Hc. unfold solve_problem_and_print_results.
  rewrite (bind_err _ _ (events (create_instance (load_data_json_format data_file))) err);
    [done|].
  rewrite <- Hc. apply Py_eta.
Qed.

End Validation.




(** * Capacity and demand constraints *)

Lemma size_constructed {K} `{Countable K} (m : gmap K relational) (l : list K) :
  (∀ k, is_Some (m !! k) ↔ k ∈ l) → NoDup l → size m = length l.
Proof.
  intros Hdom Hnodup.
  rewrite <- size_dom, <- (size_list_to_set (C:=gset K) l Hnodup).
  f_equal. apply set_eq. intros k.
  by rewrite elem_of_dom, elem_of_list_to_set.
Qed.

Lemma NoDup_outgoing model iSource :
  NoDup (sCustomers model) → NoDup (outgoing model iSource).
Proof.
  intros Hnodup. unfold outgoing.
  apply NoDup_fmap_2; [by intros ?? [=]|]. by apply NoDup_filter.
Qed.

Lemma NoDup_incoming model iCustomer :
  NoDup (sSources model) → NoDup (incoming model iCustomer).
Proof.
  intros Hnodup. unfold incoming.
  apply NoDup_fmap_2; [by intros ?? [=]|]. by apply NoDup_filter.
Qed.

(** C4.  The instance holds one capacity constraint for each source and none
    elsewhere: at a source it is the constraint that the flow, summed over
    the declared arcs from that source to the customers (each once), is at
    most the production of the source.  When no declared arc leaves the
    source the sum is empty, its value is 0 at every point, and the
    constraint holds as soon as the capacity is not negative. *)
Theorem c01_one_per_source data log instance :
  create_instance data = (log, inr instance) →
  (∀ i, is_Some (model_c01_production_limit_satisfaction instance !! i) ↔
        i ∈ sSources data) ∧
  (NoDup (sSources data) →
   size (model_c01_production_limit_satisfaction instance) = length (sSources data)) ∧
  (∀ i, i ∈ sSources data →
     model_c01_production_limit_satisfaction instance !! i =
       Some (Le (py_sum (flow <$> outgoing data i)) (Ref (ref_pSourceProduction i))) ∧
     (∀ a, a ∈ outgoing data i ↔
           a ∈ sSources_sCustomers data ∧ a.1 = i ∧ a.2 ∈ sCustomers data) ∧
     (NoDup (sCustomers data) → NoDup (outgoing data i)) ∧
     (∀ x cap, pSourceProduction data !! i = Some cap →
        holds data x (capacity_constraint data i) =
        inr (fle (total_flow x (outgoing data i)) cap)) ∧
     ((∀ j, (i, j) ∉ sSources_sCustomers data) →
        outgoing data i = [] ∧
        py_sum (flow <$> outgoing data i) = Const zero ∧
        ∀ x, value data x (py_sum (flow <$> outgoing data i)) = inr zero ∧
             ∀ cap, pSourceProduction data !! i = Some cap →
                    fle zero cap = true →
                    holds data x (capacity_constraint data i) = inr true)).
Proof.
  intros Hc. apply create_instance_inr in Hc as (_ & _ & _ & H1 & _ & _).
  assert (∀ i, is_Some (model_c01_production_limit_satisfaction instance !! i) ↔
               i ∈ sSources data) as Hdom.
  { intros i. split.
    - intros [c Hc]. by apply H1 in Hc as [? _].
    - intros Hi. exists (capacity_constraint data i). by apply H1. }
  split_and!; [done|by apply size_constructed|].
  intros i Hi. split_and!.
  - by apply H1.
  - intros a. rewrite outgoing_spec. tauto.
  - apply NoDup_outgoing.
  - intros x cap. apply holds_capacity.
  - intros Hno. pose proof (outgoing_nil data i Hno) as Hnil.
    split_and!; [done|by rewrite Hnil|].
    intros x. split; [by rewrite Hnil|].
    intros cap Hcap Hpos. rewrite (holds_capacity _ _ _ _ Hcap), Hnil. simpl.
    by f_equal.
Qed.

Lemma c01_one_per_source_witness :
  create_instance sample_isolated =
    (events (create_instance sample_isolated), inr (built sample_isolated)) ∧
  size (model_c01_production_limit_satisfaction (built sample_isolated)) = 3 ∧
  model_c01_production_limit_satisfaction (built sample_isolated) !! "Ley" =
    Some (Le (Const zero) (Ref (ref_pSourceProduction "Ley"))) ∧
  holds sample_isolated (solution_value sample_results)
        (capacity_constraint sample_isolated "Ley") = inr true.
Proof.
  assert (create_instance sample_isolated =
          (events (create_instance sample_isolated), inr (built sample_isolated)))
    as Hc by (vm_compute; reflexivity).
  split; [exact Hc|].
  destruct (c01_one_per_source _ _ _ Hc) as (_ & Hsize & Hat).
  split; [apply Hsize; compute_done|].
  destruct (Hat "Ley") as (Hentry & _ & _ & _ & Hempty); [compute_done|].
  split; [exact Hentry|].
  destruct Hempty as (_ & _ & Hx).
  { intros j Hj. repeat (apply elem_of_cons in Hj as [[=]|Hj]). by apply elem_of_nil in Hj. }
  apply (Hx (solution_value sample_results)) with (cap := 50%float); reflexivity.
Defined.

(** C5.  The instance holds one demand constraint for each customer and none
    elsewhere: at a customer it is the constraint that the flow, summed over
    the declared arcs from the sources to that customer (each once), is at
    least the demand of the customer.  The rule never skips: when no declared
    arc enters the customer the constraint is still there, its sum is empty,
    and with a positive demand it fails at every point, so that the instance
    has no feasible point. *)
Theorem c02_one_per_customer data log instance :
  create_instance data = (log, inr instance) →
  (∀ j, is_Some (model_c02_demand_limit_satisfaction instance !! j) ↔
        j ∈ sCustomers data) ∧
  (NoDup (sCustomers data) →
   size (model_c02_demand_limit_satisfaction instance) = length (sCustomers data)) ∧
  (∀ j, j ∈ sCustomers data →
     model_c02_demand_limit_satisfaction instance !! j =
       Some (Ge (py_sum (flow <$> incoming data j)) (Ref (ref_pCustomerDemand j))) ∧
     (∀ a, a ∈ incoming data j ↔
           a ∈ sSources_sCustomers data ∧ a.1 ∈ sSources data ∧ a.2 = j) ∧
     (NoDup (sSources data) → NoDup (incoming data j)) ∧
     (∀ x d, pCustomerDemand data !! j = Some d →
        holds data x (demand_constraint data j) =
        inr (fge (total_flow x (incoming data j)) d)) ∧
     ((∀ i, (i, j) ∉ sSources_sCustomers data) →
        incoming data j = [] ∧
        py_sum (flow <$> incoming data j) = Const zero ∧
        ∀ d, pCustomerDemand data !! j = Some d →
             fgt d zero = true →
             ∀ x, holds data x (demand_constraint data j) = inr false ∧
                  ¬ feasible instance x)).
Proof.
  intros Hc. apply create_instance_inr in Hc as (Hdata & _ & _ & _ & H2 & _).
  assert (∀ j, is_Some (model_c02_demand_limit_satisfaction instance !! j) ↔
               j ∈ sCustomers data) as Hdom.
  { intros j. split.
    - intros [c Hc]. by apply H2 in Hc as [? _].
    - intros Hj. exists (demand_constraint data j). by apply H2. }
  split_and!; [done|by apply size_constructed|].
  intros j Hj. split_and!.
  - by apply H2.
  - intros a. rewrite incoming_spec. tauto.
  - apply NoDup_incoming.
  - intros x d. apply holds_demand.
  - intros Hno. pose proof (incoming_nil data j Hno) as Hnil.
    split_and!; [done|by rewrite Hnil|].
    intros d Hd Hpos x.
    assert (holds data x (demand_constraint data j) = inr false) as Hfalse.
    { rewrite (holds_demand _ _ _ _ Hd), Hnil. simpl. f_equal.
      by apply gt_not_le. }
    split; [done|]. intros (_ & _ & Hfeas & _).
    specialize (Hfeas j (demand_constraint data j)).
    rewrite Hdata, Hfalse in Hfeas. by discriminate Hfeas; apply H2.
Qed.

Lemma c02_one_per_customer_witness :
  create_instance sample_isolated =
    (events (create_instance sample_isolated), inr (built sample_isolated)) ∧
  size (model_c02_demand_limit_satisfaction (built sample_isolated)) = 4 ∧
  model_c02_demand_limit_satisfaction (built sample_isolated) !! "Par" =
    Some (Ge (Const zero) (Ref (ref_pCustomerDemand "Par"))) ∧
  ¬ feasible (built sample_isolated) (solution_value sample_results).
Proof.
  assert (create_instance sample_isolated =
          (events (create_instance sample_isolated), inr (built sample_isolated)))
    as Hc by (vm_compute; reflexivity).
  split; [exact Hc|].
  destruct (c02_one_per_customer _ _ _ Hc) as (_ & Hsize & Hat).
  split; [apply Hsize; compute_done|].
  destruct (Hat "Par") as (Hentry & _ & _ & _ & Hempty); [compute_done|].
  split; [exact Hentry|].
  destruct Hempty as (_ & _ & Hx).
  { intros i Hi. repeat (apply elem_of_cons in Hi as [[=]|Hi]). by apply elem_of_nil in Hi. }
  apply (Hx 25%float); reflexivity.
Defined.

(** * The sensitivity tables *)

Section Conclusions.

Context {R : Type} (keep : R → bool) (f : R → Py unit).
Hypothesis f_prints : ∀ r, ∃ line, f r = ([Print line], inr tt).

Lemma apply_rows_eq (rows : list R) :
  apply_rows f rows = (concat ((events ∘ f) <$> rows), inr tt).
Proof.
  unfold apply_rows.
  rewrite (bind_ok _ _ (concat ((events ∘ f) <$> rows)) ((λ _, tt) <$> rows)).
  - simpl. by rewrite app_nil_r.
  - apply mapM_ok. intros r _. destruct (f_prints r) as [line Hf].
    unfold compose. by rewrite Hf.
Qed.

Lemma conclusions_outcome (rows : list R) :
  outcome (apply_rows f (filter (λ r, keep r = true) rows)) = inr tt.
Proof. by rewrite apply_rows_eq. Qed.

Lemma conclusions_events (rows : list R) (line : list pyobj) :
  Print line ∈ events (apply_rows f (filter (λ r, keep r = true) rows)) ↔
  ∃ r, r ∈ rows ∧ keep r = true ∧ f r = ([Print line], inr tt).
Proof.
  rewrite apply_rows_eq. unfold events at 1. simpl.
  rewrite elem_of_concat. split.
  - intros (l & Hline & (r & -> & [Hkeep Hr]%list_elem_of_filter)%list_elem_of_fmap).
    exists r. split_and!; try done.
    destruct (f_prints r) as [line' Hf]. simpl in Hline. rewrite Hf in Hline |- *.
    by apply list_elem_of_singleton in Hline as [= ->].
  - intros (r & Hr & Hkeep & Hf). exists [Print line]. split; [constructor|].
    apply list_elem_of_fmap. exists r. split; [by simpl; rewrite Hf|].
    by apply list_elem_of_filter.
Qed.

End Conclusions.

Lemma sources_conclusion_prints sp s :
  ∃ line, print_conclusions_sources_sensibility_analysis sp s = ([Print line], inr tt).
Proof.
  unfold print_conclusions_sources_sensibility_analysis.
  destruct (flt sp zero); [|destruct (fgt sp zero)]; by eexists.
Qed.

Lemma customers_conclusion_prints sp c :
  ∃ line, print_conclusions_customers_sensibility_analysis sp c = ([Print line], inr tt).
Proof.
  unfold print_conclusions_customers_sensibility_analysis.
  destruct (flt sp zero); [|destruct (fgt sp zero)]; by eexists.
Qed.

Lemma routes_conclusion_prints rc s c :
  ∃ line, print_conclusions_routes_sensibility_analysis rc s c = ([Print line], inr tt).
Proof.
  unfold print_conclusions_routes_sensibility_analysis.
  destruct (flt rc zero); [|destruct (fgt rc zero)]; by eexists.
Qed.

Section Tables.

Variable data : DataPortal.
Variable instance : ConcreteModel.
Variable results : SolverResults.
Variable log0 : list event.
Hypothesis built_instance : create_instance data = (log0, inr instance).

Lemma value_at_param r v :
  in_index_set data r = true →
  value data (solution_value results) (Ref r) = inr v →
  value_at instance results r = ([GetItem r], inr v).
Proof.
  intros Hr Hv. unfold value_at.
  destruct (create_instance_inr _ _ _ built_instance) as (-> & _).
  rewrite (bind_ok _ _ _ _ (getitem_ok _ _ Hr)). by rewrite Hv.
Qed.

Lemma source_rows_eq :
  (∀ i, i ∈ sSources data → is_Some (pSourceProduction data !! i)) →
  source_rows instance results =
  (concat ((λ i, [GetItem (ref_pSourceProduction i);
                  GetItem (ref_c01_production_limit_satisfaction i);
                  GetItem (ref_c01_production_limit_satisfaction i)])
             <$> sSources data),
   inr (source_row data results <$> sSources data)).
Proof.
  intros Hcap. unfold source_rows.
  destruct (create_instance_inr _ _ _ built_instance) as (Hdata & _ & _ & H1 & _).
  rewrite Hdata. apply mapM_ok. intros i Hi.
  destruct (Hcap i Hi) as [cap Hcapi].
  rewrite (bind_ok _ _ [GetItem (ref_pSourceProduction i)] cap); last first.
  { apply value_at_param; [by apply py_in_true|]. simpl. by rewrite Hcapi. }
  unfold getitem_constraint.
  assert (model_c01_production_limit_satisfaction instance !! i =
          Some (capacity_constraint data i)) as -> by (by apply H1).
  simpl. rewrite value_py_sum_flows. simpl.
  unfold source_row. by rewrite Hcapi.
Qed.

Lemma customer_rows_eq :
  (∀ j, j ∈ sCustomers data → is_Some (pCustomerDemand data !! j)) →
  customer_rows instance results =
  (concat ((λ j, [GetItem (ref_pCustomerDemand j);
                  GetItem (ref_c02_demand_limit_satisfaction j);
                  GetItem (ref_c02_demand_limit_satisfaction j)])
             <$> sCustomers data),
   inr (customer_row data results <$> sCustomers data)).
Proof.
  intros Hdem. unfold customer_rows.
  destruct (create_instance_inr _ _ _ built_instance) as (Hdata & _ & _ & _ & H2 & _).
  rewrite Hdata. apply mapM_ok. intros j Hj.
  destruct (Hdem j Hj) as [d Hd].
  rewrite (bind_ok _ _ [GetItem (ref_pCustomerDemand j)] d); last first.
  { apply value_at_param; [by apply py_in_true|]. simpl. by rewrite Hd. }
  unfold getitem_constraint.
  assert (model_c02_demand_limit_satisfaction instance !! j =
          Some (demand_constraint data j)) as -> by (by apply H2).
  simpl. rewrite value_py_sum_flows. simpl.
  unfold customer_row. by rewrite Hd.
Qed.

Lemma route_rows_eq :
  route_rows instance results =
  (concat ((λ a, [GetItem (ref_vQuantityExchangedSourceCustomer a);
                  GetItem (ref_vQuantityExchangedSourceCustomer a)])
             <$> routes data),
   inr (route_row results <$> routes data)).
Proof.
  unfold route_rows.
  destruct (create_instance_inr _ _ _ built_instance) as (Hdata & _).
  rewrite Hdata. fold (routes data). apply mapM_ok. intros a [Ha _]%routes_spec.
  rewrite (bind_ok _ _ [GetItem (ref_vQuantityExchangedSourceCustomer a)]
             (solution_value results a))
    by (apply value_at_param; [by apply py_in_true|done]).
  by rewrite (bind_ok _ _ _ _ (getitem_flow _ _ Ha)).
Qed.

End Tables.

(** * The conclusions *)








(** * The objective *)

Section Objective.

Variable model : DataPortal.
Variable results : SolverResults.

Lemma value_fold_costs (l : list arc) (e : expr) :
  value model (solution_value results) (fold_left Add (cost_term <$> l) e) =
  fold_left (add_cost model results) l (value model (solution_value results) e).
Proof.
  revert e. induction l as [|a l IH]; intros e; [done|].
  csimpl. rewrite IH. f_equal. simpl. unfold add_cost.
  destruct (value model (solution_value results) e) as [err|t]; [done|].
  by destruct (pTransportationCosts model !! a).
Qed.

Lemma recompute_total_rows (l : list arc) (acc : PyErr + float) :
  fold_left
    (λ acc row,
       match acc with
       | inl err => inl err
       | inr t =>
           let a := (RouteRow.Source row, RouteRow.Customer row) in
           match pTransportationCosts model !! a with
           | Some c => inr (t + c * RouteRow.Quantity row)%float
           | None => inl (ValueError (ref_pTransportationCosts a))
           end
       end)
    (route_row results <$> l) acc =
  fold_left (add_cost model results) l acc.
Proof.
  revert acc. induction l as [|[i j] l IH]; intros acc; [done|].
  csimpl. by rewrite IH.
Qed.

Lemma value_objective :
  value model (solution_value results) (py_sum (cost_term <$> routes model)) =
  recompute_total model (route_row results <$> routes model).
Proof.
  unfold py_sum, recompute_total.
  by rewrite value_fold_costs, recompute_total_rows.
Qed.

Lemma add_cost_total (l : list arc) (t : float) :
  (∀ a, a ∈ l → is_Some (pTransportationCosts model !! a)) →
  ∃ total, fold_left (add_cost model results) l (inr t) = inr total.
Proof.
  revert t. induction l as [|a l IH]; intros t Hcost; [by exists t|].
  destruct (Hcost a) as [c Hc]; [constructor|].
  simpl. rewrite Hc. apply IH. intros a' Ha'. apply Hcost. by constructor.
Qed.

End Objective.

Lemma events_tell_bind {B} (e : event) (k : unit → Py B) :
  events (tell e ≫= k) = e :: events (k tt).
Proof. unfold tell. simpl. by destruct (k tt). Qed.

Lemma outcome_tell_bind {B} (e : event) (k : unit → Py B) :
  outcome (tell e ≫= k) = outcome (k tt).
Proof. unfold tell. simpl. by destruct (k tt). Qed.

Lemma events_lift_bind {A B} (v : A) (k : A → Py B) :
  events (lift (inr v) ≫= k) = events (k v).
Proof. unfold lift. simpl. by destruct (k v). Qed.

Lemma outcome_lift_bind {A B} (v : A) (k : A → Py B) :
  outcome (lift (inr v) ≫= k) = outcome (k v).
Proof. unfold lift. simpl. by destruct (k v). Qed.

Lemma NoDup_cprod {A B} (l : list A) (k : list B) :
  NoDup l → NoDup k → NoDup (cprod l k).
Proof.
  intros Hl Hk. unfold cprod, list_cprod. apply NoDup_bind; [| |done].
  - intros x1 x2 y _ _ (b1 & -> & _)%list_elem_of_fmap (b2 & [= -> _] & _)%list_elem_of_fmap.
    done.
  - intros x _. apply NoDup_fmap_2; [by intros ?? [=]|done].
Qed.

(** C6.  The objective of the instance is the minimisation of the sum of
    the cost of an arc times the flow on it, over the declared arcs between
    a source and a customer; these are all the declared arcs, each once, when
    the arcs refer to declared sources and customers and the sets have no
    repetition.  After the solve the value of the objective is the total
    recomputed from the rows of the routes table (cost times quantity, summed
    in the order of the rows), it is the total that the report of an optimal
    solve prints, and it exists as soon as every such arc has a cost. *)
Theorem objective_is_total_cost data log instance results :
  create_instance data = (log, inr instance) →
  model_f_obj instance = (minimize, py_sum (cost_term <$> routes data)) ∧
  (∀ a, a ∈ routes data ↔
        a ∈ sSources_sCustomers data ∧ a.1 ∈ sSources data ∧ a.2 ∈ sCustomers data) ∧
  (arcs_closed data → ∀ a, a ∈ routes data ↔ a ∈ sSources_sCustomers data) ∧
  (NoDup (sSources data) → NoDup (sCustomers data) → NoDup (routes data)) ∧
  outcome (route_rows instance results) = inr (route_row results <$> routes data) ∧
  value (model_data instance) (solution_value results) (model_f_obj instance).2 =
    recompute_total data (route_row results <$> routes data) ∧
  (∀ total,
     recompute_total data (route_row results <$> routes data) = inr total →
     ∃ rest,
       events (report_optimal instance results) =
       [Print [PStr "Solver status: "; PStatus (results_solver_status results)];
        Print [PStr "Termination condition: ";
               PTermination (results_solver_termination_condition results); PStr nl];
        Print [PStr "Total transportation cost: "; PNum total; PStr nl]] ++ rest) ∧
  ((∀ a, a ∈ routes data → is_Some (pTransportationCosts data !! a)) →
   ∃ total, recompute_total data (route_row results <$> routes data) = inr total).
Proof.
  intros Hc.
  pose proof (create_instance_inr _ _ _ Hc) as (Hdata & _ & Hobj & _).
  assert (value (model_data instance) (solution_value results) (model_f_obj instance).2 =
          recompute_total data (route_row results <$> routes data)) as Hvalue.
  { rewrite Hdata, Hobj. apply value_objective. }
  split_and!.
  - done.
  - apply routes_spec.
  - intros Hclosed a. rewrite routes_spec. split; [by intros [? _]|].
    intros Ha. split; [done|]. by apply Hclosed.
  - intros HS HC. apply NoDup_filter. by apply NoDup_cprod.
  - by rewrite (route_rows_eq _ _ _ _ Hc).
  - done.
  - intros total Htotal. rewrite <- Hvalue in Htotal. unfold report_optimal, print.
    rewrite !events_tell_bind, Htotal, events_lift_bind, events_tell_bind.
    by eexists.
  - intros Hcost. unfold recompute_total. rewrite recompute_total_rows.
    by apply add_cost_total.
Qed.

Lemma objective_is_total_cost_witness :
  create_instance sample_data =
    (events (create_instance sample_data), inr (built sample_data)) ∧
  value sample_data (solution_value sample_results) (model_f_obj (built sample_data)).2 =
    inr 1225%float ∧
  recompute_total sample_data (route_row sample_results <$> routes sample_data) =
    inr 1225%float.
Proof.
  assert (create_instance sample_data =
          (events (create_instance sample_data), inr (built sample_data)))
    as Hc by (vm_compute; reflexivity).
  split; [exact Hc|].
  destruct (objective_is_total_cost _ _ _ sample_results Hc)
    as (_ & _ & _ & _ & _ & Hvalue & _).
  split; [|reflexivity].
  change sample_data with (model_data (built sample_data)) at 1.
  rewrite Hvalue. reflexivity.
Defined.

(** * The outcomes of the solve *)

(** Membership in a list that is written out. *)
Ltac listed :=
  repeat first [apply list_elem_of_here | apply list_elem_of_further].

Lemma sensitivity_event_not_status e st tc :
  sensitivity_event e →
  e ∈ [Print [PStr nl]; Print [PStr "Solver status: "; PStatus st];
       Print [PStr "Termination condition: "; PTermination tc];
       ResultsWrite; Print [PNone]] →
  False.
Proof.
  intros Hs Hin.
  assert (∀ l, e = Print l →
               l = [PStr nl] ∨ l = [PStr "Solver status: "; PStatus st] ∨
               l = [PStr "Termination condition: "; PTermination tc] ∨
               l = [PNone]) as Hlines.
  { intros l ->.
    repeat (apply elem_of_cons in Hin as [[=]|Hin]; subst; auto).
    by apply elem_of_nil in Hin. }
  destruct Hs as [(cols & rows & ->)|[->|[->|[->|[(sp & s & Hp)|[(sp & c & Hp)|(rc & s & c & Hp)]]]]]].
  - repeat (apply elem_of_cons in Hin as [[=]|Hin]). by apply elem_of_nil in Hin.
  - destruct (Hlines _ eq_refl) as [[=]|[[=]|[[=]|[=]]]].
  - destruct (Hlines _ eq_refl) as [[=]|[[=]|[[=]|[=]]]].
  - destruct (Hlines _ eq_refl) as [[=]|[[=]|[[=]|[=]]]].
  - unfold print_conclusions_sources_sensibility_analysis in Hp.
    destruct (flt sp zero); [|destruct (fgt sp zero)];
      injection Hp as <-; destruct (Hlines _ eq_refl) as [[=]|[[=]|[[=]|[=]]]].
  - unfold print_conclusions_customers_sensibility_analysis in Hp.
    destruct (flt sp zero); [|destruct (fgt sp zero)];
      injection Hp as <-; destruct (Hlines _ eq_refl) as [[=]|[[=]|[[=]|[=]]]].
  - unfold print_conclusions_routes_sensibility_analysis in Hp.
    destruct (flt rc zero); [|destruct (fgt rc zero)];
      injection Hp as <-; destruct (Hlines _ eq_refl) as [[=]|[[=]|[[=]|[=]]]].
Qed.

Section Branches.

Variable instance : ConcreteModel.
Variable results : SolverResults.

Lemma print_results_optimal :
  results_solver_termination_condition results = TerminationCondition.optimal →
  results_solver_status results = SolverStatus.ok →
  print_results instance results = report_optimal instance results.
Proof.
  intros Htc Hst. unfold print_results.
  by rewrite (bool_decide_eq_true_2 _ Htc), (bool_decide_eq_true_2 _ Hst).
Qed.

Lemma print_results_infeasible :
  results_solver_termination_condition results = TerminationCondition.infeasible →
  print_results instance results = report_infeasible results.
Proof.
  intros Htc. unfold print_results. rewrite Htc.
  by destruct (results_solver_status results).
Qed.

Lemma print_results_other :
  ¬ (results_solver_termination_condition results = TerminationCondition.optimal ∧
     results_solver_status results = SolverStatus.ok) →
  results_solver_termination_condition results ≠ TerminationCondition.infeasible →
  print_results instance results = report_other results.
Proof.
  intros Hopt Htc. unfold print_results.
  rewrite (bool_decide_eq_false_2 _ Htc).
  destruct (decide (results_solver_termination_condition results =
                    TerminationCondition.optimal)) as [Heq|Hne].
  - rewrite (bool_decide_eq_true_2 _ Heq).
    rewrite bool_decide_eq_false_2; [done|]. intros Hst. by apply Hopt.
  - by rewrite (bool_decide_eq_false_2 _ Hne).
Qed.

End Branches.

(** C9.  The report of the sensitivity analysis is that of the branch taken
    when the termination condition is [optimal] and the status is [ok].  When
    the termination condition is [infeasible] the run prints the status, the
    termination condition and the dump of [results.write()] (followed by the
    [None] that it returns), and otherwise the status and the termination
    condition only; in neither case does it print a table, a heading or a
    conclusion of the sensitivity analysis, nor index a component. *)
Theorem sensitivity_only_when_optimal instance results :
  let st := results_solver_status results in
  let tc := results_solver_termination_condition results in
  (tc = TerminationCondition.optimal ∧ st = SolverStatus.ok →
   print_results instance results = report_optimal instance results) ∧
  (tc = TerminationCondition.infeasible →
   print_results instance results =
   ([Print [PStr nl];
     Print [PStr "Solver status: "; PStatus st];
     Print [PStr "Termination condition: "; PTermination tc];
     Print [PStr nl];
     ResultsWrite;
     Print [PNone]], inr tt)) ∧
  (¬ (tc = TerminationCondition.optimal ∧ st = SolverStatus.ok) → tc ≠ TerminationCondition.infeasible →
   print_results instance results =
   ([Print [PStr nl];
     Print [PStr "Solver status: "; PStatus st];
     Print [PStr "Termination condition: "; PTermination tc]], inr tt)) ∧
  (∀ e, e ∈ events (print_results instance results) →
        sensitivity_event e ∨ (∃ r, e = GetItem r) →
        tc = TerminationCondition.optimal ∧ st = SolverStatus.ok).
Proof.
  intros st tc. split_and!.
  - intros [Htc Hst]. by apply print_results_optimal.
  - intros Htc. by rewrite (print_results_infeasible _ _ Htc).
  - intros Hopt Htc. by rewrite (print_results_other _ _ Hopt Htc).
  - intros e Hin He.
    destruct (decide (tc = TerminationCondition.optimal ∧ st = SolverStatus.ok))
      as [|Hopt]; [done|exfalso].
    assert (e ∈ [Print [PStr nl]; Print [PStr "Solver status: "; PStatus st];
                 Print [PStr "Termination condition: "; PTermination tc];
                 ResultsWrite; Print [PNone]]) as Hin'.
    { destruct (decide (tc = TerminationCondition.infeasible)) as [Htc|Htc].
      - rewrite (print_results_infeasible _ _ Htc) in Hin.
        unfold events in Hin. simpl in Hin. fold st tc in Hin.
        repeat (apply elem_of_cons in Hin as [->|Hin]; [by listed|]).
        by apply elem_of_nil in Hin.
      - rewrite (print_results_other _ _ Hopt Htc) in Hin.
        unfold events in Hin. simpl in Hin. fold st tc in Hin.
        repeat (apply elem_of_cons in Hin as [->|Hin]; [by listed|]).
        by apply elem_of_nil in Hin. }
    destruct He as [He|[r ->]].
    + by eapply sensitivity_event_not_status.
    + repeat (apply elem_of_cons in Hin' as [[=]|Hin']). by apply elem_of_nil in Hin'.
Qed.

Lemma sensitivity_only_when_optimal_witness :
  print_results (built sample_isolated) (sample_results_outcome SolverStatus.warning TerminationCondition.infeasible) =
    ([Print [PStr nl];
      Print [PStr "Solver status: "; PStatus SolverStatus.warning];
      Print [PStr "Termination condition: "; PTermination TerminationCondition.infeasible];
      Print [PStr nl];
      ResultsWrite;
      Print [PNone]], inr tt) ∧
  print_results (built sample_data) (sample_results_outcome SolverStatus.ok TerminationCondition.unbounded) =
    ([Print [PStr nl];
      Print [PStr "Solver status: "; PStatus SolverStatus.ok];
      Print [PStr "Termination condition: "; PTermination TerminationCondition.unbounded]], inr tt) ∧
  print_results (built sample_data) (sample_results_outcome SolverStatus.aborted TerminationCondition.optimal) =
    ([Print [PStr nl];
      Print [PStr "Solver status: "; PStatus SolverStatus.aborted];
      Print [PStr "Termination condition: "; PTermination TerminationCondition.optimal]], inr tt).
Proof.
  split_and!.
  - apply (sensitivity_only_when_optimal
             (built sample_isolated) (sample_results_outcome SolverStatus.warning TerminationCondition.infeasible)).
    reflexivity.
  - apply (sensitivity_only_when_optimal
             (built sample_data) (sample_results_outcome SolverStatus.ok TerminationCondition.unbounded)).
    + by intros [[=] _].
    + discriminate.
  - apply (sensitivity_only_when_optimal
             (built sample_data) (sample_results_outcome SolverStatus.aborted TerminationCondition.optimal)).
    + by intros [_ [=]].
    + discriminate.
Defined.

(** * The report of an optimal solve, end to end *)

Lemma events_bind_ok {A B} (m : Py A) (f : A → Py B) log a :
  m = (log, inr a) → events (m ≫= f) = log ++ events (f a).
Proof. intros ->. simpl. by destruct (f a). Qed.

Lemma outcome_bind_ok {A B} (m : Py A) (f : A → Py B) log a :
  m = (log, inr a) → outcome (m ≫= f) = outcome (f a).
Proof. intros ->. simpl. by destruct (f a). Qed.

Section OptimalReport.

Variable data : DataPortal.
Variable instance : ConcreteModel.
Variable results : SolverResults.
Variable log0 : list event.
Hypothesis built_instance : create_instance data = (log0, inr instance).

Lemma quantity_rows_eq :
  quantity_rows instance results =
  (events (quantity_rows instance results),
   inr (concat (quantity_entry data results <$>
                cprod (sSources data) (sCustomers data)))).
Proof.
  rewrite (Py_eta (quantity_rows instance results)) at 1. f_equal.
  unfold quantity_rows.
  destruct (create_instance_inr _ _ _ built_instance) as (Hdata & _).
  rewrite Hdata.
  erewrite outcome_bind_ok; [done|].
  apply (mapM_ok _ _
    (λ a, if py_in a (sSources_sCustomers data)
          then if fgt (solution_value results a) zero
               then [GetItem (ref_vQuantityExchangedSourceCustomer a);
                     GetItem (ref_vQuantityExchangedSourceCustomer a)]
               else [GetItem (ref_vQuantityExchangedSourceCustomer a)]
          else [])
    (quantity_entry data results)).
  intros a _. unfold quantity_entry.
  destruct (py_in a (sSources_sCustomers data)) eqn:Ha; [|done].
  assert (value_at instance results (ref_vQuantityExchangedSourceCustomer a) =
          ([GetItem (ref_vQuantityExchangedSourceCustomer a)],
           inr (solution_value results a))) as Hq.
  { by eapply value_at_param. }
  rewrite (bind_ok _ _ _ _ Hq). simpl.
  destruct (fgt (solution_value results a) zero); [|done].
  by rewrite (bind_ok _ _ _ _ Hq).
Qed.

(** When every parameter that the report reads has a value, the optimal
    branch prints the whole report and ends without error. *)
Lemma report_optimal_eq total :
  recompute_total data (route_row results <$> routes data) = inr total →
  (∀ i, i ∈ sSources data → is_Some (pSourceProduction data !! i)) →
  (∀ j, j ∈ sCustomers data → is_Some (pCustomerDemand data !! j)) →
  report_optimal instance results =
  (optimal_report instance results total
     (concat (quantity_entry data results <$> cprod (sSources data) (sCustomers data)))
     (source_row data results <$> sSources data)
     (customer_row data results <$> sCustomers data)
     (route_row results <$> routes data),
   inr tt).
Proof.
  intros Htotal Hcap Hdem.
  destruct (create_instance_inr _ _ _ built_instance) as (Hdata & _ & Hobj & _).
  assert (value (model_data instance) (solution_value results) (model_f_obj instance).2 =
          inr total) as Hvalue.
  { rewrite Hdata, Hobj, <- Htotal. apply value_objective. }
  pose proof quantity_rows_eq as Hq.
  pose proof (source_rows_eq _ _ results _ built_instance Hcap) as Hs.
  pose proof (customer_rows_eq _ _ results _ built_instance Hdem) as Hc.
  pose proof (route_rows_eq _ _ results _ built_instance) as Hr.
  assert (∀ rows, source_conclusions rows = (events (source_conclusions rows), inr tt))
    as Hsc.
  { intros rows. rewrite (Py_eta (source_conclusions rows)) at 1. f_equal.
    apply (conclusions_outcome (λ row, feq (SourceRow.Capacity row) (SourceRow.Shipped row))).
    intros r. apply sources_conclusion_prints. }
  assert (∀ rows, customer_conclusions rows = (events (customer_conclusions rows), inr tt))
    as Hcc.
  { intros rows. rewrite (Py_eta (customer_conclusions rows)) at 1. f_equal.
    apply (conclusions_outcome
             (λ row, feq (CustomerRow.Demand row) (CustomerRow.Shipped row))).
    intros r. apply customers_conclusion_prints. }
  assert (∀ rows, route_conclusions rows = (events (route_conclusions rows), inr tt))
    as Hrc.
  { intros rows. rewrite (Py_eta (route_conclusions rows)) at 1. f_equal.
    apply (conclusions_outcome (λ row, feq (RouteRow.Quantity row) zero)).
    intros r. apply routes_conclusion_prints. }
  rewrite (Py_eta (report_optimal instance results)).
  unfold report_optimal, optimal_report, print. f_equal.
  - rewrite !events_tell_bind, Hvalue, events_lift_bind, !events_tell_bind.
    rewrite (events_bind_ok _ _ _ _ Hq), !events_tell_bind.
    rewrite (events_bind_ok _ _ _ _ Hs), !events_tell_bind.
    rewrite (events_bind_ok _ _ _ _ (Hsc _)), !events_tell_bind.
    rewrite (events_bind_ok _ _ _ _ Hc), !events_tell_bind.
    rewrite (events_bind_ok _ _ _ _ (Hcc _)), !events_tell_bind.
    rewrite (events_bind_ok _ _ _ _ Hr), !events_tell_bind.
    rewrite (events_bind_ok _ _ _ _ (Hrc _)).
    by rewrite Hs, Hc, Hr.
  - rewrite !outcome_tell_bind, Hvalue, outcome_lift_bind, !outcome_tell_bind.
    rewrite (outcome_bind_ok _ _ _ _ Hq), !outcome_tell_bind.
    rewrite (outcome_bind_ok _ _ _ _ Hs), !outcome_tell_bind.
    rewrite (outcome_bind_ok _ _ _ _ (Hsc _)), !outcome_tell_bind.
    rewrite (outcome_bind_ok _ _ _ _ Hc), !outcome_tell_bind.
    rewrite (outcome_bind_ok _ _ _ _ (Hcc _)), !outcome_tell_bind.
    rewrite (outcome_bind_ok _ _ _ _ Hr), !outcome_tell_bind.
    by rewrite (outcome_bind_ok _ _ _ _ (Hrc _)).
Qed.

End OptimalReport.


(** * The flow variables of the constraints *)

Lemma vars_of_fold_flows (l : list arc) (e : expr) :
  vars_of (fold_left Add (flow <$> l) e) = vars_of e ++ l.
Proof.
  revert e. induction l as [|a l IH]; intros e; csimpl; [by rewrite app_nil_r|].
  rewrite IH. simpl. by rewrite <- app_assoc.
Qed.

Lemma vars_of_fold_costs (l : list arc) (e : expr) :
  vars_of (fold_left Add (cost_term <$> l) e) = vars_of e ++ l.
Proof.
  revert e. induction l as [|a l IH]; intros e; csimpl; [by rewrite app_nil_r|].
  rewrite IH. simpl. by rewrite <- app_assoc.
Qed.

(** X1.  In an instance that [create_instance] has built, the flow of a
    declared arc from a source to a customer occurs in the capacity
    constraint of that source and of no other, in the demand constraint of
    that customer and of no other, and in the objective; a fixed-flow
    constraint holds the flow of its own arc only.  A declared arc whose
    source or customer is not in the sets has a flow variable that occurs in
    no constraint and not in the objective. *)
Theorem flow_variables_of_the_constraints data log instance :
  create_instance data = (log, inr instance) →
  (∀ i c a, model_c01_production_limit_satisfaction instance !! i = Some c →
     (a ∈ vars_of_relational c ↔
      a ∈ sSources_sCustomers data ∧ a.1 = i ∧ a.2 ∈ sCustomers data)) ∧
  (∀ j c a, model_c02_demand_limit_satisfaction instance !! j = Some c →
     (a ∈ vars_of_relational c ↔
      a ∈ sSources_sCustomers data ∧ a.1 ∈ sSources data ∧ a.2 = j)) ∧
  (∀ b c, model_c03_fixed_transportations instance !! b = Some c →
     vars_of_relational c = [b]) ∧
  (∀ a, a ∈ vars_of ((model_f_obj instance).2) ↔
        a ∈ sSources_sCustomers data ∧ a.1 ∈ sSources data ∧ a.2 ∈ sCustomers data) ∧
  (∀ a, a ∈ sSources_sCustomers data →
        (a.1 ∉ sSources data ∨ a.2 ∉ sCustomers data) →
        a ∈ model_vQuantityExchangedSourceCustomer instance ∧
        (a ∉ vars_of ((model_f_obj instance).2)) ∧
        (∀ i c, model_c01_production_limit_satisfaction instance !! i = Some c →
                a ∉ vars_of_relational c) ∧
        (∀ j c, model_c02_demand_limit_satisfaction instance !! j = Some c →
                a ∉ vars_of_relational c) ∧
        (∀ b c, model_c03_fixed_transportations instance !! b = Some c →
                a ∉ vars_of_relational c)).
Proof.
  intros Hc. apply create_instance_inr in Hc as (_ & Hv & Hobj & H1 & H2 & H3).
  assert (∀ i c a, model_c01_production_limit_satisfaction instance !! i = Some c →
            (a ∈ vars_of_relational c ↔
             a ∈ sSources_sCustomers data ∧ a.1 = i ∧ a.2 ∈ sCustomers data)) as V1.
  { intros i c a [_ ->]%H1. unfold capacity_constraint, py_sum. simpl.
    rewrite vars_of_fold_flows, app_nil_r. simpl. rewrite outgoing_spec. tauto. }
  assert (∀ j c a, model_c02_demand_limit_satisfaction instance !! j = Some c →
            (a ∈ vars_of_relational c ↔
             a ∈ sSources_sCustomers data ∧ a.1 ∈ sSources data ∧ a.2 = j)) as V2.
  { intros j c a [_ ->]%H2. unfold demand_constraint, py_sum. simpl.
    rewrite vars_of_fold_flows, app_nil_r. simpl. rewrite incoming_spec. tauto. }
  assert (∀ b c, model_c03_fixed_transportations instance !! b = Some c →
            vars_of_relational c = [b]) as V3.
  { by intros b c [_ (v & _ & _ & ->)]%H3. }
  assert (∀ a, a ∈ vars_of ((model_f_obj instance).2) ↔
               a ∈ sSources_sCustomers data ∧ a.1 ∈ sSources data ∧
               a.2 ∈ sCustomers data) as Vobj.
  { intros a. rewrite Hobj. unfold py_sum. simpl.
    rewrite vars_of_fold_costs. simpl. apply routes_spec. }
  split_and!; try done.
  intros a Ha Hout. split_and!.
  - by rewrite Hv.
  - rewrite Vobj. tauto.
  - intros i c Hic. rewrite (V1 i c a Hic). apply H1 in Hic as [Hi _].
    intros (_ & <- & ?). tauto.
  - intros j c Hjc. rewrite (V2 j c a Hjc). apply H2 in Hjc as [Hj _].
    intros (_ & ? & <-). tauto.
  - intros b c Hbc. rewrite (V3 b c Hbc). apply H3 in Hbc as [Hb _].
    apply routes_spec in Hb as (_ & ? & ?).
    intros ->%list_elem_of_singleton. tauto.
Qed.

Lemma flow_variables_of_the_constraints_witness :
  ("Rot", "Ams") ∈ model_vQuantityExchangedSourceCustomer (built sample_malformed) ∧
  (("Rot", "Ams") ∉ vars_of ((model_f_obj (built sample_malformed)).2)) ∧
  vars_of ((model_f_obj (built sample_malformed)).2) =
    [("Arn", "Ams"); ("Arn", "Ber"); ("Gou", "Ams"); ("Gou", "Lon")].
Proof.
  assert (create_instance sample_malformed =
          (events (create_instance sample_malformed), inr (built sample_malformed)))
    as Hc by (vm_compute; reflexivity).
  destruct (flow_variables_of_the_constraints _ _ _ Hc) as (_ & _ & _ & _ & Horphan).
  destruct (Horphan ("Rot", "Ams")) as (Hvar & Hobj & _); [compute_done|left; compute_done|].
  split_and!; [exact Hvar|exact Hobj|reflexivity].
Defined.

(** * Parameters enter by reference *)

Section SameStructure.

Variables d1 d2 : DataPortal.
Hypothesis same : same_structure d1 d2.

Lemma same_outgoing i : outgoing d1 i = outgoing d2 i.
Proof. destruct same as (_ & HC & HA & _). unfold outgoing. by rewrite HC, HA. Qed.

Lemma same_incoming j : incoming d1 j = incoming d2 j.
Proof. destruct same as (HS & _ & HA & _). unfold incoming. by rewrite HS, HA. Qed.

Lemma same_routes : routes d1 = routes d2.
Proof. destruct same as (HS & HC & HA & _). unfold routes. by rewrite HS, HC, HA. Qed.

Lemma same_c01 i :
  i ∈ sSources d1 →
  c01_production_limit_satisfaction d1 i = c01_production_limit_satisfaction d2 i.
Proof.
  intros Hi. rewrite (c01_eq d1 i Hi), same_outgoing.
  destruct same as (HS & _). rewrite HS in Hi. by rewrite (c01_eq d2 i Hi).
Qed.

Lemma same_c02 j :
  j ∈ sCustomers d1 →
  c02_demand_limit_satisfaction d1 j = c02_demand_limit_satisfaction d2 j.
Proof.
  intros Hj. rewrite (c02_eq d1 j Hj), same_incoming.
  destruct same as (_ & HC & _). rewrite HC in Hj. by rewrite (c02_eq d2 j Hj).
Qed.

Lemma same_c03 i j :
  c03_fixed_transportations d1 i j = c03_fixed_transportations d2 i j.
Proof.
  destruct same as (_ & _ & HA & HF).
  destruct (decide ((i, j) ∈ sSources_sCustomers d1)) as [Ha|Ha].
  - pose proof Ha as Ha2. rewrite HA in Ha2.
    destruct (pFixedTransportation d1 !! (i, j)) as [v|] eqn:Hv.
    + rewrite (c03_declared d1 _ _ v Ha Hv). rewrite HF in Hv.
      by rewrite (c03_declared d2 _ _ v Ha2 Hv).
    + rewrite (c03_absent d1 _ _ Ha Hv). rewrite HF in Hv.
      by rewrite (c03_absent d2 _ _ Ha2 Hv).
  - rewrite (c03_undeclared d1 _ _ Ha). rewrite HA in Ha.
    by rewrite (c03_undeclared d2 _ _ Ha).
Qed.

End SameStructure.

Lemma construct_ext {K} `{Countable K} (rule1 rule2 : K → Py rule_result) l :
  (∀ k, k ∈ l → rule1 k = rule2 k) → construct rule1 l = construct rule2 l.
Proof.
  induction l as [|k l IH]; intros Hext; [done|].
  rewrite !construct_cons, (Hext k) by constructor.
  rewrite IH; [done|]. intros k' Hk'. apply Hext. by constructor.
Qed.



(** * The table of the quantities exchanged *)

Lemma elem_of_quantity_entry data results (a b : arc) (q : float) :
  (a, q) ∈ quantity_entry data results b ↔
  b = a ∧ a ∈ sSources_sCustomers data ∧
  fgt (solution_value results a) zero = true ∧ q = solution_value results a.
Proof.
  unfold quantity_entry.
  destruct (py_in b (sSources_sCustomers data)) eqn:Hb; simpl.
  - apply py_in_true in Hb.
    destruct (fgt (solution_value results b) zero) eqn:Hq.
    + rewrite list_elem_of_singleton. split.
      * by intros [= -> ->].
      * by intros (-> & _ & _ & ->).
    + rewrite elem_of_nil. split; [done|]. intros (-> & _ & Hq' & _). congruence.
  - apply py_in_false in Hb. rewrite elem_of_nil.
    split; [done|]. by intros (-> & ? & _).
Qed.

Lemma quantity_keys data results (l : list arc) :
  (concat (quantity_entry data results <$> l)).*1 =
  filter (λ a, (py_in a (sSources_sCustomers data)
                && fgt (solution_value results a) zero) = true) l.
Proof.
  induction l as [|a l IH]; [done|]. csimpl. rewrite fmap_app, IH, filter_cons.
  unfold quantity_entry.
  by destruct (py_in a (sSources_sCustomers data)
               && fgt (solution_value results a) zero).
Qed.

(** X3.  The dictionary of the quantities exchanged is always built.  It
    holds the declared arcs from a source to a customer whose solved flow is
    greater than zero, each with that flow; an arc whose flow is zero,
    negative or not a number is left out.  Its keys are distinct when the
    sets have no repetition. *)
Theorem quantities_exchanged data log instance results :
  create_instance data = (log, inr instance) →
  let rows := concat (quantity_entry data results <$>
                      cprod (sSources data) (sCustomers data)) in
  outcome (quantity_rows instance results) = inr rows ∧
  (∀ a q, (a, q) ∈ rows ↔
          a ∈ sSources_sCustomers data ∧
          a.1 ∈ sSources data ∧ a.2 ∈ sCustomers data ∧
          fgt (solution_value results a) zero = true ∧
          q = solution_value results a) ∧
  (∀ a q, (a, q) ∈ rows →
          feq q zero = false ∧ flt q zero = false ∧ is_nan q = false) ∧
  (NoDup (sSources data) → NoDup (sCustomers data) → NoDup (rows.*1)).
Proof.
  intros Hc rows.
  assert (∀ a q, (a, q) ∈ rows ↔
            a ∈ sSources_sCustomers data ∧
            a.1 ∈ sSources data ∧ a.2 ∈ sCustomers data ∧
            fgt (solution_value results a) zero = true ∧
            q = solution_value results a) as Hrows.
  { intros a q. unfold rows. rewrite elem_of_concat. split.
    - intros (l & Hin & (b & -> & Hb)%list_elem_of_fmap).
      apply elem_of_quantity_entry in Hin as (-> & ? & ? & ?).
      by apply list_elem_of_cprod in Hb as [? ?].
    - intros (Ha & Hi & Hj & Hq & ->). exists (quantity_entry data results a).
      split; [by apply elem_of_quantity_entry|].
      apply list_elem_of_fmap. exists a. split; [done|].
      by apply list_elem_of_cprod. }
  split_and!.
  - by rewrite (quantity_rows_eq _ _ results _ Hc).
  - done.
  - intros a q (_ & _ & _ & Hq & ->)%Hrows.
    split_and!.
    + destruct (feq (solution_value results a) zero) eqn:Hz; [|done].
      apply eq_not_gt in Hz. congruence.
    + by apply gt_not_lt.
    + by apply gt_not_nan.
  - intros HS HC. unfold rows. rewrite quantity_keys.
    apply NoDup_filter. by apply NoDup_cprod.
Qed.

Lemma quantities_exchanged_witness :
  outcome (quantity_rows (built sample_data) sample_results) =
    inr [(("Arn", "Ber"), 200%float); (("Gou", "Ams"), 300%float);
         (("Gou", "Lon"), 100%float)].
Proof.
  assert (create_instance sample_data =
          (events (create_instance sample_data), inr (built sample_data)))
    as Hc by (vm_compute; reflexivity).
  destruct (quantities_exchanged _ _ _ sample_results Hc) as (Hrows & _).
  rewrite Hrows. reflexivity.
Defined.

(** * The tables agree *)

Section RoutesByEndpoint.

Context (P : arc → Prop) `{!∀ a, Decision (P a)}.

Lemma filter_none {A} (Q : A → Prop) `{!∀ x, Decision (Q x)} (l : list A) :
  (∀ x, x ∈ l → ¬ Q x) → filter Q l = [].
Proof.
  induction l as [|x l IH]; intros Hl; [done|].
  rewrite filter_cons_False by (apply Hl; constructor).
  apply IH. intros y Hy. apply Hl. by constructor.
Qed.

Lemma cprod_cons (x : string) (S C : list string) :
  cprod (x :: S) C = ((x,.) <$> C) ++ cprod S C.
Proof. done. Qed.

Lemma block_of_source (i : string) (C : list string) :
  filter (λ a : arc, a.1 = i) (filter P ((i,.) <$> C)) =
  (i,.) <$> filter (λ c, P (i, c)) C.
Proof.
  induction C as [|c C IH]; [done|]. csimpl. rewrite !filter_cons.
  destruct (decide (P (i, c))); [|done].
  rewrite filter_cons_True by done. csimpl. by rewrite IH.
Qed.

Lemma routes_of_source (i : string) (S C : list string) :
  NoDup S → i ∈ S →
  filter (λ a : arc, a.1 = i) (filter P (cprod S C)) =
  (i,.) <$> filter (λ c, P (i, c)) C.
Proof.
  induction 1 as [|x S Hx HS IH]; [by intros ?%elem_of_nil|].
  intros Hi. rewrite cprod_cons, !filter_app.
  destruct (decide (x = i)) as [->|Hne].
  - rewrite block_of_source, (filter_none _ (filter P (cprod S C))).
    + by rewrite app_nil_r.
    + intros a [_ [Ha _]%list_elem_of_cprod]%list_elem_of_filter Heq.
      apply Hx. by rewrite <- Heq.
  - rewrite (filter_none _ (filter P ((x,.) <$> C))).
    + apply IH. by apply elem_of_cons in Hi as [?|?].
    + intros a [_ (c & -> & _)%list_elem_of_fmap]%list_elem_of_filter. done.
Qed.

Lemma block_of_customer (j x : string) (C : list string) :
  NoDup C → j ∈ C →
  filter (λ a : arc, a.2 = j) (filter P ((x,.) <$> C)) =
  if decide (P (x, j)) then [(x, j)] else [].
Proof.
  induction 1 as [|c C Hc HC IH]; [by intros ?%elem_of_nil|].
  intros Hj. csimpl. rewrite (filter_cons P).
  destruct (decide (c = j)) as [->|Hne].
  - assert (filter (λ a : arc, a.2 = j) (filter P ((x,.) <$> C)) = []) as Hrest.
    { apply filter_none.
      intros a [_ (c & -> & Hin)%list_elem_of_fmap]%list_elem_of_filter Heq.
      simpl in Heq. by subst. }
    destruct (decide (P (x, j))); [|done].
    by rewrite filter_cons_True, Hrest.
  - assert (j ∈ C) as Hj' by (by apply elem_of_cons in Hj as [?|?]).
    destruct (decide (P (x, c))); [|by apply IH].
    rewrite filter_cons_False by (simpl; congruence). by apply IH.
Qed.

Lemma routes_of_customer (j : string) (S C : list string) :
  NoDup C → j ∈ C →
  filter (λ a : arc, a.2 = j) (filter P (cprod S C)) =
  (., j) <$> filter (λ s, P (s, j)) S.
Proof.
  intros HC Hj. induction S as [|x S IH]; [done|].
  rewrite cprod_cons, !filter_app, IH, (block_of_customer _ _ _ HC Hj).
  rewrite (filter_cons (λ s, P (s, j))).
  by destruct (decide (P (x, j))).
Qed.

End RoutesByEndpoint.

Lemma filter_route_rows_source results (l : list arc) (i : string) :
  filter (λ row, RouteRow.Source row = i) (route_row results <$> l) =
  route_row results <$> filter (λ a : arc, a.1 = i) l.
Proof.
  induction l as [|a l IH]; [done|]. csimpl. rewrite !filter_cons. simpl.
  destruct (decide (a.1 = i)); csimpl; by rewrite IH.
Qed.

Lemma filter_route_rows_customer results (l : list arc) (j : string) :
  filter (λ row, RouteRow.Customer row = j) (route_row results <$> l) =
  route_row results <$> filter (λ a : arc, a.2 = j) l.
Proof.
  induction l as [|a l IH]; [done|]. csimpl. rewrite !filter_cons. simpl.
  destruct (decide (a.2 = j)); csimpl; by rewrite IH.
Qed.

Lemma sum_quantity_route_rows results (l : list arc) :
  sum_quantity (route_row results <$> l) = total_flow (solution_value results) l.
Proof.
  unfold sum_quantity, total_flow. generalize zero.
  induction l as [|a l IH]; intros acc; [done|]. csimpl. by rewrite IH.
Qed.



(** * Fixed quantities and feasible points *)

(** X5.  In an instance that [create_instance] has built, every feasible
    point ships exactly the fixed quantity on a declared arc from a source to
    a customer whose fixed quantity is not zero.  A fixed quantity that is
    negative or not a number is not rejected by the formulation: it leaves
    the instance without feasible point, since the flow variables are
    non-negative reals. *)
Theorem fixed_quantity_is_shipped data log instance a v :
  create_instance data = (log, inr instance) →
  a ∈ sSources_sCustomers data →
  a.1 ∈ sSources data →
  a.2 ∈ sCustomers data →
  pFixedTransportation data !! a = Some v →
  feq v zero = false →
  (∀ x, feasible instance x → feq (x a) v = true) ∧
  (flt v zero = true ∨ is_nan v = true → ∀ x, ¬ feasible instance x).
Proof.
  intros Hc Ha Hi Hj Hv Hnz.
  apply create_instance_inr in Hc as (Hdata & Hvars & _ & _ & _ & H3).
  assert (∀ x, feasible instance x → fle zero (x a) = true ∧ feq (x a) v = true)
    as Hfeas.
  { intros x (Hdom & _ & _ & Hfix). split.
    - apply Hdom. by rewrite Hvars.
    - specialize (Hfix a (fixed_flow a)). rewrite Hdata in Hfix.
      unfold fixed_flow, holds, relate in Hfix. simpl in Hfix. rewrite Hv in Hfix.
      assert (inr (feq (x a) v) = inr true :> PyErr + bool) as Heq; [|by injection Heq].
      apply Hfix, H3. split; [by apply routes_spec|].
      exists v. by rewrite truthy_nonzero. }
  split.
  - intros x Hx. by apply Hfeas.
  - intros Hbad x [Hpos Heq]%Hfeas.
    destruct (eq_of_nonnegative _ _ Hpos Heq) as [Hneg Hnan].
    destruct Hbad; congruence.
Qed.

Lemma fixed_quantity_is_shipped_witness :
  ¬ feasible (built sample_negative_fixed) (solution_value sample_results).
Proof.
  assert (create_instance sample_negative_fixed =
          (events (create_instance sample_negative_fixed),
           inr (built sample_negative_fixed)))
    as Hc by (vm_compute; reflexivity).
  destruct (fixed_quantity_is_shipped _ _ _ ("Arn", "Ams") (-1)%float Hc)
    as [_ Hnone];
    [compute_done|compute_done|compute_done|reflexivity|reflexivity|].
  apply Hnone. by left.
Defined.

(** * One line for each conclusion *)

(** X6.  Each of the three functions that print a conclusion prints one line
    and never fails, whatever the number it is given.  The amount in the
    line, when there is one, is greater than zero (the absolute value of a
    negative number, or the positive number itself); the line without amount,
    that the cost would remain equal, is printed exactly when the number is
    zero, of either sign, or is not a number. *)
Theorem conclusions_print_one_line :
  (∀ sp s, ∃ line,
     print_conclusions_sources_sensibility_analysis sp s = ([Print line], inr tt) ∧
     (∀ y, y ∈ amounts line → fgt y zero = true) ∧
     (amounts line = [] ↔ feq sp zero = true ∨ is_nan sp = true)) ∧
  (∀ sp c, ∃ line,
     print_conclusions_customers_sensibility_analysis sp c = ([Print line], inr tt) ∧
     (∀ y, y ∈ amounts line → fgt y zero = true) ∧
     (amounts line = [] ↔ feq sp zero = true ∨ is_nan sp = true)) ∧
  (∀ rc s c, ∃ line,
     print_conclusions_routes_sensibility_analysis rc s c = ([Print line], inr tt) ∧
     (∀ y, y ∈ amounts line → fgt y zero = true) ∧
     (amounts line = [] ↔ feq rc zero = true ∨ is_nan rc = true)).
Proof.
  assert (∀ x, flt x zero = true →
               ¬ (feq x zero = true ∨ is_nan x = true)) as Hneg.
  { intros x Hlt [Heq|Hnan].
    - apply eq_not_lt in Heq. congruence.
    - apply nan_no_sign in Hnan as (? & _). congruence. }
  assert (∀ x, fgt x zero = true →
               ¬ (feq x zero = true ∨ is_nan x = true)) as Hpos.
  { intros x Hgt [Heq|Hnan].
    - apply eq_not_gt in Heq. congruence.
    - apply nan_no_sign in Hnan as (_ & ? & _). congruence. }
  split_and!.
  - intros sp s. unfold print_conclusions_sources_sensibility_analysis.
    destruct (flt sp zero) eqn:Hlt; [|destruct (fgt sp zero) eqn:Hgt];
      eexists; (split; [reflexivity|]); simpl; split.
    + intros y ->%list_elem_of_singleton. by apply abs_of_negative.
    + split; [done|]. intros H. by apply Hneg in H.
    + by intros y ->%list_elem_of_singleton.
    + split; [done|]. intros H. by apply Hpos in H.
    + by intros y ?%elem_of_nil.
    + split; [|done]. intros _. by apply no_sign.
  - intros sp c. unfold print_conclusions_customers_sensibility_analysis.
    destruct (flt sp zero) eqn:Hlt; [|destruct (fgt sp zero) eqn:Hgt];
      eexists; (split; [reflexivity|]); simpl; split.
    + intros y ->%list_elem_of_singleton. by apply abs_of_negative.
    + split; [done|]. intros H. by apply Hneg in H.
    + by intros y ->%list_elem_of_singleton.
    + split; [done|]. intros H. by apply Hpos in H.
    + by intros y ?%elem_of_nil.
    + split; [|done]. intros _. by apply no_sign.
  - intros rc s c. unfold print_conclusions_routes_sensibility_analysis.
    destruct (flt rc zero) eqn:Hlt; [|destruct (fgt rc zero) eqn:Hgt];
      eexists; (split; [reflexivity|]); simpl; split.
    + intros y ->%list_elem_of_singleton. by apply abs_of_negative.
    + split; [done|]. intros H. by apply Hneg in H.
    + by intros y ->%list_elem_of_singleton.
    + split; [done|]. intros H. by apply Hpos in H.
    + by intros y ?%elem_of_nil.
    + split; [|done]. intros _. by apply no_sign.
Qed.

Lemma conclusions_print_one_line_witness :
  ∃ line,
    print_conclusions_sources_sensibility_analysis nan "Arn" = ([Print line], inr tt) ∧
    amounts line = [].
Proof.
  destruct conclusions_print_one_line as (Hsources & _ & _).
  destruct (Hsources nan "Arn") as (line & Hline & _ & Hnone).
  exists line. split; [exact Hline|]. apply Hnone. right. reflexivity.
Defined.

(** * The solver is called once *)

Section AllEvents.

Context (P : event → Prop).

Lemma all_ret {A} (a : A) : all_events P (mret a : Py A).
Proof. by intros e ?%elem_of_nil. Qed.

Lemma all_lift {A} (r : PyErr + A) : all_events P (lift r).
Proof. by intros e ?%elem_of_nil. Qed.

Lemma all_raise {A} (err : PyErr) : all_events P (raise err : Py A).
Proof. by intros e ?%elem_of_nil. Qed.

Lemma all_tell (e : event) : P e → all_events P (tell e).
Proof. by intros He e' ->%list_elem_of_singleton. Qed.

Lemma all_bind {A B} (m : Py A) (f : A → Py B) :
  all_events P m → (∀ a, all_events P (f a)) → all_events P (m ≫= f).
Proof.
  intros Hm Hf e [He|(a & _ & He)]%events_bind_elem; [by apply Hm|by eapply Hf].
Qed.

Lemma all_mapM {A B} (f : A → Py B) (l : list A) :
  (∀ x, all_events P (f x)) → all_events P (mapM f l).
Proof. intros Hf e (x & _ & He)%mapM_events. by eapply Hf. Qed.

Lemma all_getitem model r : P (GetItem r) → all_events P (getitem model r).
Proof.
  intros Hr. unfold getitem. apply all_bind; [by apply all_tell|].
  intros _. destruct (in_index_set model r); [apply all_ret|apply all_raise].
Qed.

Lemma all_getitem_constraint {K} `{Countable K}
    (component : gmap K relational) (k : K) r :
  P (GetItem r) → all_events P (getitem_constraint component k r).
Proof.
  intros Hr. unfold getitem_constraint. apply all_bind; [by apply all_tell|].
  intros _. destruct (component !! k); [apply all_ret|apply all_raise].
Qed.

End AllEvents.

(** Goals of the form [all_events P m], where [P] holds of every access and
    of everything printed. *)
Ltac all_events_tac :=
  repeat first
    [ apply all_ret
    | apply all_lift
    | apply all_raise
    | apply all_tell; reflexivity
    | apply all_getitem; reflexivity
    | apply all_getitem_constraint; reflexivity
    | apply all_mapM; intros ?
    | apply all_bind; [|intros ?]
    | match goal with
      | |- all_events _ (if ?b then _ else _) => destruct b
      end ].

Lemma report_never_solves instance results :
  all_events (λ e, is_solve e = false) (print_results instance results).
Proof.
  unfold print_results.
  destruct (_ && _); [|destruct (bool_decide _)].
  - unfold report_optimal, quantity_rows, source_rows, customer_rows, route_rows,
      source_conclusions, customer_conclusions, route_conclusions, apply_rows,
      value_at, print.
    all_events_tac;
      unfold print_conclusions_sources_sensibility_analysis,
        print_conclusions_customers_sensibility_analysis,
        print_conclusions_routes_sensibility_analysis, print;
      all_events_tac.
  - unfold report_infeasible, print. all_events_tac.
  - unfold report_other, print. all_events_tac.
Qed.

(** X7.  A run first formulates, and prints nothing while it does.  When the
    formulation succeeds the solver is called once, after the accesses of the
    formulation and before anything is printed; when the formulation fails
    the solver is not called and nothing is printed at all. *)
Theorem solver_is_called_once load_data_json_format cbc data_file :
  let data := load_data_json_format data_file in
  let run := solve_problem_and_print_results load_data_json_format cbc data_file in
  (∀ log instance,
     create_instance data = (log, inr instance) →
     ∃ report,
       events run = log ++ Solve :: report ∧
       (∀ e, e ∈ log → is_access e = true) ∧
       (∀ e, e ∈ report → is_solve e = false) ∧
       length (filter (λ e, is_solve e = true) (events run)) = 1) ∧
  (∀ err,
     outcome (create_instance data) = inl err →
     outcome run = inl err ∧ ∀ e, e ∈ events run → is_access e = true).
Proof.
  intros data run.
  assert (∀ e, e ∈ events (create_instance data) → is_access e = true) as Hacc.
  { intros e He%create_instance_in_range. by destruct e. }
  split.
  - intros log instance Hc.
    exists (events (print_results instance (cbc instance))).
    assert (∀ e, e ∈ log → is_access e = true) as Hlog.
    { intros e He. apply Hacc. by rewrite Hc. }
    pose proof (report_never_solves instance (cbc instance)) as Hreport.
    assert (events run =
            log ++ Solve :: events (print_results instance (cbc instance))) as Hrun.
    { unfold run. by rewrite (run_after_instance _ _ _ _ _ Hc). }
    split_and!; [done|done|done|].
    rewrite Hrun, filter_app, filter_cons_True by done.
    rewrite (filter_none _ log), (filter_none _ (events _)); [done| |].
    + intros e He%Hreport. congruence.
    + intros e He%Hlog. by destruct e.
  - intros err Herr. unfold run.
    rewrite (run_without_instance _ _ _ _ Herr). split; [done|]. apply Hacc.
Qed.

Lemma solver_is_called_once_witness :
  length (filter (λ e, is_solve e = true)
            (events (solve_problem_and_print_results
                       (λ _, sample_data) (λ _, sample_results) "sample.json"))) = 1.
Proof.
  destruct (solver_is_called_once (λ _, sample_data) (λ _, sample_results) "sample.json")
    as [Honce _].
  destruct (Honce (events (create_instance sample_data)) (built sample_data))
    as (report & _ & _ & _ & Hcount); [vm_compute; reflexivity|].
  exact Hcount.
Defined.

(** * Each route is listed or concluded *)

Lemma routes_conclusion_names rc rc' s c s' c' line :
  print_conclusions_routes_sensibility_analysis rc s c = ([Print line], inr tt) →
  print_conclusions_routes_sensibility_analysis rc' s' c' = ([Print line], inr tt) →
  s = s' ∧ c = c'.
Proof.
  unfold print_conclusions_routes_sensibility_analysis, print, tell.
  destruct (flt rc zero), (fgt rc zero), (flt rc' zero), (fgt rc' zero);
    intros [= <-] [=]; by subst.
Qed.




(** * The conclusions come in the order of the table *)

Section InOrder.

Context {R : Type} (keep : R → bool) (f : R → Py unit).
Hypothesis f_prints : ∀ r, ∃ line, f r = ([Print line], inr tt).

Lemma lines_in_order (l : list R) :
  ∃ lines,
    concat ((events ∘ f) <$> l) = Print <$> lines ∧
    Forall2 (λ r line, f r = ([Print line], inr tt)) l lines.
Proof.
  induction l as [|r l (lines & Hev & Hall)]; [by exists []|].
  destruct (f_prints r) as [line Hline].
  exists (line :: lines). split; [|by constructor].
  csimpl. by rewrite Hline, Hev.
Qed.

Lemma conclusions_in_order (rows : list R) :
  ∃ lines,
    events (apply_rows f (filter (λ r, keep r = true) rows)) = Print <$> lines ∧
    Forall2 (λ r line, f r = ([Print line], inr tt))
            (filter (λ r, keep r = true) rows) lines.
Proof. rewrite (apply_rows_eq f f_prints). apply lines_in_order. Qed.

End InOrder.



(** * A source without route *)

(** X11.  A source without outgoing arc whose capacity is negative or not a
    number is formulated like any other: its capacity constraint, with the
    empty sum on the left, is in the instance, fails at every point, and
    leaves the instance without feasible point. *)
Theorem isolated_source_needs_a_capacity data log instance i cap :
  create_instance data = (log, inr instance) →
  i ∈ sSources data →
  (∀ j, (i, j) ∉ sSources_sCustomers data) →
  pSourceProduction data !! i = Some cap →
  flt cap zero = true ∨ is_nan cap = true →
  model_c01_production_limit_satisfaction instance !! i =
    Some (Le (Const zero) (Ref (ref_pSourceProduction i))) ∧
  ∀ x, holds data x (Le (Const zero) (Ref (ref_pSourceProduction i))) = inr false ∧
       ¬ feasible instance x.
Proof.
  intros Hc Hi Hno Hcap Hbad.
  apply create_instance_inr in Hc as (Hdata & _ & _ & H1 & _).
  assert (capacity_constraint data i =
          Le (Const zero) (Ref (ref_pSourceProduction i))) as Hshape.
  { unfold capacity_constraint. by rewrite (outgoing_nil _ _ Hno). }
  assert (model_c01_production_limit_satisfaction instance !! i =
          Some (Le (Const zero) (Ref (ref_pSourceProduction i)))) as Hentry.
  { rewrite <- Hshape. by apply H1. }
  split; [done|]. intros x.
  assert (holds data x (Le (Const zero) (Ref (ref_pSourceProduction i))) = inr false)
    as Hfalse.
  { unfold holds, relate. simpl. rewrite Hcap. f_equal. by apply zero_not_le. }
  split; [done|]. intros (_ & Hfeas & _).
  specialize (Hfeas i _ Hentry). rewrite Hdata, Hfalse in Hfeas. discriminate Hfeas.
Qed.

Lemma isolated_source_needs_a_capacity_witness :
  ¬ feasible (built sample_isolated_negative) (solution_value sample_results).
Proof.
  assert (create_instance sample_isolated_negative =
          (events (create_instance sample_isolated_negative),
           inr (built sample_isolated_negative)))
    as Hc by (vm_compute; reflexivity).
  destruct (isolated_source_needs_a_capacity _ _ _ "Ley" (-50)%float Hc)
    as [_ Hnone]; [compute_done| |reflexivity|by left|].
  - intros j Hj. repeat (apply elem_of_cons in Hj as [[=]|Hj]).
    by apply elem_of_nil in Hj.
  - apply Hnone.
Defined.
